(** * pycoolmasternet-async: a verification model of [coolmasternet.py]

    The module is a client for the CoolMasterNet bridge: a prompt-delimited
    text protocol over TCP ([CoolMasterNet._make_request]), two reads built
    on it ([info], [status]) and a parsed snapshot of one unit
    ([CoolMasterNetUnit]) with mutators that send a command and refresh.

    Layout of this file:
    - [Py]       the Python built-ins the module calls (str methods, [re.split]
                 for the two patterns used, [float], [repr]);
    - [Aio]      the asyncio effects as a small program monad, the bridge as a
                 scripted peer, a sequential runner and an interleaving one;
    - [Bridge]   [CoolMasterNet]: [_make_request] and [info];
    - [Unit]     [CoolMasterNetUnit]: the constructor with [_parse], [create],
                 [refresh] and the two mutators that check their argument,
                 [set_mode] and [set_swing];
    - the lemmas on the built-ins, on status lines, on the transaction, on
      the mutators, on [info] and on the pool of three slots.

    Python [str] is modelled by [string], whose characters stand for the code
    points 0..255; [bytes] by [list byte]; [float] by binary64 values of
    [SpecFloat] (precision 53, emax 1024). *)

From Stdlib Require Import ZArith NArith String Ascii List Lia Bool.
From Stdlib Require Import Strings.Byte.
From Stdlib Require Import Floats.SpecFloat.
From stdpp Require Import base gmap strings list pretty.

Import ListNotations.
Local Open Scope string_scope.
Local Open Scope Z_scope.
Local Open Scope list_scope.

(* ===================================================================== *)
(** * Python built-ins                                                     *)
(* ===================================================================== *)

Module Py.

(** Characters that string literals cannot hold directly. *)
Definition TAB : ascii := "009"%char.
Definition LF : ascii := "010"%char.
Definition CR : ascii := "013"%char.
Definition DQUOTE : ascii := "034"%char.
Definition SQUOTE : ascii := "039"%char.
Definition BACKSLASH : ascii := "092"%char.

Definition nl : string := String LF EmptyString.
Definition crlf : string := String CR (String LF EmptyString).

Definition code (c : ascii) : N := N_of_ascii c.

(** [str.isspace] on one character, code points below 256:
    TAB LF VT FF CR, FS GS RS US, SPACE, NEL and NBSP.  The same predicate
    is the class [\s] of [re] on [str] patterns. *)
Definition isspace (c : ascii) : bool :=
  let n := code c in
  ((9 <=? n) && (n <=? 13) || (28 <=? n) && (n <=? 32)
   || (n =? 133) || (n =? 160))%N.

Definition isdigit (c : ascii) : bool :=
  let n := code c in ((48 <=? n) && (n <=? 57))%N.

Definition is_ascii_char (c : ascii) : bool := (code c <? 128)%N.

Fixpoint forall_chars (p : ascii -> bool) (s : string) : bool :=
  match s with
  | EmptyString => true
  | String c r => p c && forall_chars p r
  end.

(** [s.lstrip()], [s.rstrip()], [s.strip()] with no argument. *)
Fixpoint lstrip (s : string) : string :=
  match s with
  | EmptyString => EmptyString
  | String c r => if isspace c then lstrip r else s
  end.

Fixpoint rstrip (s : string) : string :=
  match s with
  | EmptyString => EmptyString
  | String c r =>
      match rstrip r with
      | EmptyString => if isspace c then EmptyString else String c EmptyString
      | r' => String c r'
      end
  end.

Definition strip (s : string) : string := rstrip (lstrip s).

(** [s.startswith(p)] and [s.endswith(p)]. *)
Fixpoint startswith (s p : string) : bool :=
  match p, s with
  | EmptyString, _ => true
  | String a p', String b s' => Ascii.eqb a b && startswith s' p'
  | String _ _, EmptyString => false
  end.

Fixpoint endswith (s suf : string) : bool :=
  String.eqb s suf ||
  match s with
  | EmptyString => false
  | String _ r => endswith r suf
  end.

(** Slices and indexing: [s[:-n]] for [n > 0], and [s[-1]], which raises
    IndexError on the empty string (here [None]). *)
Definition slice_drop_last (n : nat) (s : string) : string :=
  substring 0 (String.length s - n) s.

(** [s[a:b]] for non-negative bounds. *)
Definition slice (a b : nat) (s : string) : string :=
  substring a (b - a) s.

Fixpoint last_char (s : string) : option ascii :=
  match s with
  | EmptyString => None
  | String c EmptyString => Some c
  | String _ r => last_char r
  end.

(** Prepends a character to the first piece of a list of pieces. *)
Definition cons_head (c : ascii) (ps : list string) : list string :=
  match ps with
  | [] => [String c EmptyString]
  | p :: ps' => String c p :: ps'
  end.

(** [s.split(sep)] for a non-empty [sep]: the pieces between the
    non-overlapping occurrences of [sep], scanning left to right.  [skip]
    counts the characters of an occurrence still to be passed over. *)
Fixpoint split_go (sep : string) (skip : nat) (s : string) : list string :=
  match skip, s with
  | S k, String _ r => split_go sep k r
  | _, EmptyString => [EmptyString]
  | O, String c r =>
      if startswith s sep
      then EmptyString :: split_go sep (String.length sep - 1) r
      else cons_head c (split_go sep 0 r)
  end.

Definition split (sep s : string) : list string := split_go sep 0 s.

(** [s.replace(old, new)] for a non-empty [old]. *)
Fixpoint replace_go (old new : string) (skip : nat) (s : string) : string :=
  match skip, s with
  | S k, String _ r => replace_go old new k r
  | _, EmptyString => EmptyString
  | O, String c r =>
      if startswith s old
      then new +:+ replace_go old new (String.length old - 1) r
      else String c (replace_go old new 0 r)
  end.

Definition replace (old new s : string) : string := replace_go old new 0 s.

(** [sep.join(l)]. *)
Fixpoint join (sep : string) (l : list string) : string :=
  match l with
  | [] => EmptyString
  | [x] => x
  | x :: r => x +:+ sep +:+ join sep r
  end.

(** [s.lower()] on code points below 256: A-Z and the Latin-1 capitals
    (all of 0xC0..0xDE but the multiplication sign) move up by 32. *)
Definition lower_char (c : ascii) : ascii :=
  let n := code c in
  if ((65 <=? n) && (n <=? 90)
      || (192 <=? n) && (n <=? 222) && negb (n =? 215))%N
  then ascii_of_N (n + 32) else c.

Fixpoint lower (s : string) : string :=
  match s with
  | EmptyString => EmptyString
  | String c r => String (lower_char c) (lower r)
  end.

(** [x in l] for a list of strings. *)
Definition str_in (x : string) (l : list string) : bool :=
  existsb (String.eqb x) l.

(** ** [re.split] for the two patterns of the module

    A matcher gives the length of the match of the pattern at the start of
    its argument, if there is one.  Both patterns only match non-empty
    text.  [re.split] looks for the leftmost match from the current
    position, cuts there and resumes after the match; [maxsplit = 0] means
    no bound on the number of cuts, [done] counts the cuts made. *)

Fixpoint leading_ws (s : string) : nat :=
  match s with
  | String c r => if isspace c then S (leading_ws r) else O
  | EmptyString => O
  end.

Fixpoint drop_chars (n : nat) (s : string) : string :=
  match n, s with
  | S k, String _ r => drop_chars k r
  | _, _ => s
  end.

(** [\s+]: the whole run of whitespace, at least one character. *)
Definition match_ws_plus (s : string) : option nat :=
  match leading_ws s with
  | O => None
  | n => Some n
  end.

(** [\s*:\s*]: a run of whitespace, a colon, a run of whitespace.  Giving
    back whitespace to the first star cannot help, since the character that
    then follows is whitespace and not the colon. *)
Definition match_colon (s : string) : option nat :=
  let n := leading_ws s in
  match drop_chars n s with
  | String c r =>
      if Ascii.eqb c ":"%char then Some (n + 1 + leading_ws r)%nat else None
  | EmptyString => None
  end.

Fixpoint re_split_go (m : string -> option nat) (maxsplit done : nat)
    (skip : nat) (s : string) : list string :=
  match skip, s with
  | S k, String _ r => re_split_go m maxsplit done k r
  | _, EmptyString => [EmptyString]
  | O, String c r =>
      match (if (maxsplit =? 0)%nat || (done <? maxsplit)%nat
             then m s else None) with
      | Some (S n) => EmptyString :: re_split_go m maxsplit (S done) n r
      | _ => cons_head c (re_split_go m maxsplit done 0 r)
      end
  end.

Definition re_split (m : string -> option nat) (s : string)
    (maxsplit : nat) : list string :=
  re_split_go m maxsplit 0 0 s.

(** ** Exceptions

    The classes the module raises or lets through.  [ConnectionError] and
    [ValueError] are the two the module raises itself, with their message;
    the others come from the built-ins and from asyncio.  [NetworkError]
    stands for the OSError subclasses asyncio raises when a connection
    cannot be opened or is lost (ConnectionRefusedError and the like). *)
Inductive exn : Type :=
  | ConnectionError (msg : string)
  | ValueError (msg : string)
  | TimeoutError
  | IncompleteReadError (partial : list byte)
  | LimitOverrunError
  | UnicodeEncodeError
  | UnicodeDecodeError
  | NetworkError (name : string)
  | IndexError
  | KeyError (key : string).

(** ** [repr] of a [str] and [str] of a list of [str] *)

Definition hex_digit (n : N) : ascii :=
  if (n <? 10)%N then ascii_of_N (48 + n) else ascii_of_N (87 + n).

Definition isprintable (c : ascii) : bool :=
  let n := code c in
  ((32 <=? n) && (n <? 127) || (161 <=? n) && negb (n =? 173))%N.

Definition repr_char (quote : ascii) (c : ascii) : string :=
  if Ascii.eqb c quote || Ascii.eqb c BACKSLASH
  then String BACKSLASH (String c EmptyString)
  else if Ascii.eqb c TAB then String BACKSLASH "t"
  else if Ascii.eqb c LF then String BACKSLASH "n"
  else if Ascii.eqb c CR then String BACKSLASH "r"
  else if isprintable c then String c EmptyString
  else String BACKSLASH
         (String "x" (String (hex_digit (code c / 16))
                        (String (hex_digit (code c mod 16)) EmptyString))).

Fixpoint has_char (q : ascii) (s : string) : bool :=
  match s with
  | EmptyString => false
  | String c r => Ascii.eqb c q || has_char q r
  end.

Fixpoint repr_body (quote : ascii) (s : string) : string :=
  match s with
  | EmptyString => EmptyString
  | String c r => repr_char quote c +:+ repr_body quote r
  end.

Definition repr (s : string) : string :=
  let quote :=
    if has_char SQUOTE s && negb (has_char DQUOTE s) then DQUOTE else SQUOTE in
  String quote (repr_body quote s +:+ String quote EmptyString).

Definition str_of_list (l : list string) : string :=
  "[" +:+ join ", " (map repr l) +:+ "]".

(** ** [float(s)] for a [str] argument

    The value of a decimal literal is its correctly rounded binary64 value
    (round to nearest, ties to even; overflow gives an infinity). *)

Definition prec : Z := 53.
Definition emax : Z := 1024.
Definition float : Type := spec_float.

Definition float_of_decimal (neg : bool) (m : N) (e10 : Z) : float :=
  match m with
  | N0 => S754_zero neg
  | Npos p =>
      if 0 <=? e10
      then binary_normalize prec emax (cond_Zopp neg (Zpos p * 10 ^ e10)) 0 neg
      else SFdiv prec emax (S754_finite neg p 0)
                 (S754_finite false (Z.to_pos (10 ^ (- e10))) 0)
  end.

Fixpoint span_digits (s : string) : string * string :=
  match s with
  | String c r =>
      if isdigit c
      then let (d, t) := span_digits r in (String c d, t)
      else (EmptyString, s)
  | EmptyString => (EmptyString, EmptyString)
  end.

Fixpoint digits_value (acc : N) (ds : string) : N :=
  match ds with
  | EmptyString => acc
  | String c r => digits_value (10 * acc + (code c - 48))%N r
  end.

Definition take_sign (s : string) : bool * string :=
  match s with
  | String c r =>
      if Ascii.eqb c "-"%char then (true, r)
      else if Ascii.eqb c "+"%char then (false, r)
      else (false, s)
  | EmptyString => (false, s)
  end.

(** Underscores are dropped when each one stands between two digits;
    [prev] is the character before, NUL at the start. *)
Fixpoint remove_underscores (prev : ascii) (s : string) : option string :=
  match s with
  | EmptyString =>
      if Ascii.eqb prev "_"%char then None else Some EmptyString
  | String c r =>
      if Ascii.eqb c "_"%char
      then (if isdigit prev then remove_underscores c r else None)
      else if Ascii.eqb prev "_"%char && negb (isdigit c) then None
      else option_map (String c) (remove_underscores c r)
  end.

(** A non-ASCII argument is first rewritten: characters below 127 stay,
    other whitespace becomes a space, and anything else (no decimal digit
    lies in 127..255) becomes a question mark that ends the text. *)
Fixpoint transform_space (s : string) : string :=
  match s with
  | EmptyString => EmptyString
  | String c r =>
      if (code c <? 127)%N then String c (transform_space r)
      else if isspace c then String " "%char (transform_space r)
      else "?"
  end.

(** ASCII whitespace of the C locale: TAB LF VT FF CR and SPACE. *)
Definition c_isspace (c : ascii) : bool :=
  let n := code c in ((9 <=? n) && (n <=? 13) || (n =? 32))%N.

Fixpoint c_lstrip (s : string) : string :=
  match s with
  | EmptyString => EmptyString
  | String c r => if c_isspace c then c_lstrip r else s
  end.

Fixpoint c_rstrip (s : string) : string :=
  match s with
  | EmptyString => EmptyString
  | String c r =>
      match c_rstrip r with
      | EmptyString => if c_isspace c then EmptyString else String c EmptyString
      | r' => String c r'
      end
  end.

(** The grammar, applied to the whole of its argument:
    [sign] (digits [. [digits]] | . digits) [(e|E) [sign] digits], or
    [sign] and one of inf, infinity, nan in any case. *)
Definition parse_float (s : string) : option float :=
  let (neg, s1) := take_sign s in
  let word := lower s1 in
  if String.eqb word "inf" || String.eqb word "infinity"
  then Some (S754_infinity neg)
  else if String.eqb word "nan" then Some S754_nan
  else
    let (ip, s2) := span_digits s1 in
    let (fp, s3) :=
      match s2 with
      | String c r => if Ascii.eqb c "."%char then span_digits r
                      else (EmptyString, s2)
      | EmptyString => (EmptyString, s2)
      end in
    if String.eqb ip EmptyString && String.eqb fp EmptyString then None
    else
      let m := digits_value 0 (ip +:+ fp) in
      let scale := Z.of_nat (String.length fp) in
      match s3 with
      | EmptyString => Some (float_of_decimal neg m (- scale))
      | String c r =>
          if Ascii.eqb c "e"%char || Ascii.eqb c "E"%char
          then
            let (eneg, r1) := take_sign r in
            let (ed, r2) := span_digits r1 in
            if String.eqb ed EmptyString || negb (String.eqb r2 EmptyString)
            then None
            else
              let e := cond_Zopp eneg (Z.of_N (digits_value 0 ed)) in
              Some (float_of_decimal neg m (e - scale))
          else None
      end.

Definition py_float (s : string) : exn + float :=
  let t := if forall_chars is_ascii_char s then s else transform_space s in
  let t := c_rstrip (c_lstrip t) in
  match
    match remove_underscores "000"%char t with
    | Some u => parse_float u
    | None => None
    end
  with
  | Some x => inr x
  | None => inl (ValueError ("could not convert string to float: " +:+ repr s))
  end.

(** The finite float [x] is exactly the rational [num / den]. *)
Definition float_is (x : float) (num den : Z) : Prop :=
  match x with
  | S754_zero _ => num = 0
  | S754_finite s m e =>
      if 0 <=? e then cond_Zopp s (Zpos m) * 2 ^ e * den = num
      else cond_Zopp s (Zpos m) * den = num * 2 ^ (- e)
  | _ => False
  end.

(** [s.encode("ascii")] and [b.decode("ascii")]. *)
Definition encode_ascii (s : string) : exn + list byte :=
  if forall_chars is_ascii_char s then inr (list_byte_of_string s)
  else inl UnicodeEncodeError.

Definition decode_ascii (b : list byte) : exn + string :=
  let s := string_of_list_byte b in
  if forall_chars is_ascii_char s then inr s else inl UnicodeDecodeError.

(** A bytes literal. *)
Definition bytes (s : string) : list byte := list_byte_of_string s.

End Py.

Import Py.

(* ===================================================================== *)
(** * asyncio: effects, the bridge as a peer, and two runners              *)
(* ===================================================================== *)

Module Aio.

(** A connection is named by its index in the table of the connections
    opened so far. *)
Abbreviation conn := nat (only parsing).

(** Programs: the awaits and calls of the module on asyncio, with the
    continuation that receives their result.  A result that may be an
    exception is a sum, so that [try ... finally] sees it.

    - [Acquire], [Release]: the semaphore of the [async with];
    - [Open]: [asyncio.open_connection(host, port)];
    - [ReadUntil]: [asyncio.wait_for(reader.readuntil(sep), timeout)];
    - [Write]: [writer.write(data)];
    - [Close], [WaitClosed]: [writer.close()], [writer.wait_closed()]. *)
Inductive prog (A : Type) : Type :=
  | Ret (a : A)
  | Raise (e : exn)
  | Acquire (k : prog A)
  | Release (k : prog A)
  | Open (host : string) (port : Z) (k : exn + conn -> prog A)
  | ReadUntil (c : conn) (sep : list byte) (timeout : Z)
              (k : exn + list byte -> prog A)
  | Write (c : conn) (data : list byte) (k : prog A)
  | Close (c : conn) (k : prog A)
  | WaitClosed (c : conn) (k : exn + unit -> prog A).

Arguments Ret {A} a.
Arguments Raise {A} e.
Arguments Acquire {A} k.
Arguments Release {A} k.
Arguments Open {A} host port k.
Arguments ReadUntil {A} c sep timeout k.
Arguments Write {A} c data k.
Arguments Close {A} c k.
Arguments WaitClosed {A} c k.

Fixpoint bind {A B : Type} (p : prog A) (f : A -> prog B) : prog B :=
  match p with
  | Ret a => f a
  | Raise e => Raise e
  | Acquire k => Acquire (bind k f)
  | Release k => Release (bind k f)
  | Open h pt k => Open h pt (fun r => bind (k r) f)
  | ReadUntil c sep t k => ReadUntil c sep t (fun r => bind (k r) f)
  | Write c d k => Write c d (bind k f)
  | Close c k => Close c (bind k f)
  | WaitClosed c k => WaitClosed c (fun r => bind (k r) f)
  end.

Notation "'let*' x ':=' p 'in' q" := (bind p (fun x => q))
  (at level 10, x pattern, p at level 100, q at level 200).

(** The value of an expression that may raise. *)
Definition lift {A : Type} (r : exn + A) : prog A :=
  match r with
  | inl e => Raise e
  | inr a => Ret a
  end.

(** [try: body finally: fin].  The clean-up runs on both exits; an
    exception of the clean-up replaces the outcome of the body. *)
Fixpoint try_finally {A : Type} (body : prog A) (fin : prog unit) : prog A :=
  match body with
  | Ret a => let* _ := fin in Ret a
  | Raise e => let* _ := fin in Raise e
  | Acquire k => Acquire (try_finally k fin)
  | Release k => Release (try_finally k fin)
  | Open h pt k => Open h pt (fun r => try_finally (k r) fin)
  | ReadUntil c sep t k => ReadUntil c sep t (fun r => try_finally (k r) fin)
  | Write c d k => Write c d (try_finally k fin)
  | Close c k => Close c (try_finally k fin)
  | WaitClosed c k => WaitClosed c (fun r => try_finally (k r) fin)
  end.

(** [async with semaphore: body]. *)
Definition async_with_semaphore {A : Type} (body : prog A) : prog A :=
  Acquire (try_finally body (Release (Ret tt))).

Definition open_connection (host : string) (port : Z) : prog conn :=
  Open host port lift.
Definition wait_for_readuntil (c : conn) (sep : list byte) (timeout : Z)
    : prog (list byte) :=
  ReadUntil c sep timeout lift.
Definition write (c : conn) (data : list byte) : prog unit :=
  Write c data (Ret tt).
Definition close (c : conn) : prog unit := Close c (Ret tt).
Definition wait_closed (c : conn) : prog unit := WaitClosed c lift.

(** ** The bridge seen from one connection

    What the peer sends once connected, what it sends back for the bytes of
    a write, and how its stream goes on after the bytes listed: it stays
    silent for longer than the read timeout ([Stalls]) or it is closed
    ([Eof]).  The bound of a read is not interpreted: the script lists the
    bytes that arrive within it.  [close_error] is the exception, if any,
    that [wait_closed] re-raises. *)
Inductive stream_end : Type := Stalls | Eof.

Record peer : Type := {
  greeting : list byte;
  greeting_end : stream_end;
  reply : list byte -> list byte;
  reply_end : list byte -> stream_end;
  close_error : option exn
}.

Record conn_state : Type := {
  c_peer : peer;
  inbuf : list byte;
  inend : stream_end;
  written : list (list byte);
  closed : bool
}.

Inductive event : Type :=
  | EvAcquire
  | EvRelease
  | EvOpen (c : conn)
  | EvRefused
  | EvRead (c : conn) (r : exn + list byte)
  | EvWrite (c : conn) (data : list byte)
  | EvClose (c : conn)
  | EvWaitClosed (c : conn).

(** The shared store: the value of the semaphore of the bridge object, the
    behaviour of the connection attempts to come ([None]: refused), the
    connections opened so far and the effects so far, oldest first. *)
Record world : Type := {
  sem : Z;
  peers : list (option peer);
  conns : list conn_state;
  log : list event
}.

Definition set_sem (v : Z) (w : world) : world :=
  {| sem := v; peers := peers w; conns := conns w; log := log w |}.
Definition set_conn (c : conn) (cs : conn_state) (w : world) : world :=
  {| sem := sem w; peers := peers w; conns := <[c := cs]> (conns w);
     log := log w |}.
Definition add_log (e : event) (w : world) : world :=
  {| sem := sem w; peers := peers w; conns := conns w; log := log w ++ [e] |}.

Fixpoint bytes_eqb (a b : list byte) : bool :=
  match a, b with
  | [], [] => true
  | x :: a', y :: b' => Byte.eqb x y && bytes_eqb a' b'
  | _, _ => false
  end.

Fixpoint bytes_prefix (p l : list byte) : bool :=
  match p, l with
  | [], _ => true
  | x :: p', y :: l' => Byte.eqb x y && bytes_prefix p' l'
  | _ :: _, [] => false
  end.

(** [buffer.find(sep)]. *)
Fixpoint find_sep (sep buf : list byte) : option nat :=
  if bytes_prefix sep buf then Some O
  else match buf with
       | [] => None
       | _ :: r => option_map S (find_sep sep r)
       end.

(** The limit of a StreamReader, [2 ** 16] unless set otherwise. *)
Definition limit : Z := 65536.

(** [StreamReader.readuntil(sep)] under [wait_for], on the bytes the
    script makes available. *)
Definition readuntil (sep : list byte) (cs : conn_state)
    : (exn + list byte) * conn_state :=
  let buf := inbuf cs in
  match find_sep sep buf with
  | Some i =>
      if limit <? Z.of_nat i then (inl LimitOverrunError, cs)
      else
        let n := (i + length sep)%nat in
        (inr (take n buf),
         {| c_peer := c_peer cs; inbuf := drop n buf; inend := inend cs;
            written := written cs; closed := closed cs |})
  | None =>
      if (Z.of_nat (length sep) <=? Z.of_nat (length buf))
         && (limit <? Z.of_nat (length buf) + 1 - Z.of_nat (length sep))
      then (inl LimitOverrunError, cs)
      else match inend cs with
           | Eof =>
               (inl (IncompleteReadError buf),
                {| c_peer := c_peer cs; inbuf := []; inend := Eof;
                   written := written cs; closed := closed cs |})
           | Stalls => (inl TimeoutError, cs)
           end
  end.

Definition connect (p : peer) : conn_state :=
  {| c_peer := p; inbuf := greeting p; inend := greeting_end p;
     written := []; closed := false |}.

(** The peer answers a write unless it has closed its side. *)
Definition send (data : list byte) (cs : conn_state) : conn_state :=
  match inend cs with
  | Eof =>
      {| c_peer := c_peer cs; inbuf := inbuf cs; inend := Eof;
         written := written cs ++ [data]; closed := closed cs |}
  | Stalls =>
      {| c_peer := c_peer cs; inbuf := inbuf cs ++ reply (c_peer cs) data;
         inend := reply_end (c_peer cs) data;
         written := written cs ++ [data]; closed := closed cs |}
  end.

Definition shut (cs : conn_state) : conn_state :=
  {| c_peer := c_peer cs; inbuf := inbuf cs; inend := inend cs;
     written := written cs; closed := true |}.

Definition refused : exn := NetworkError "ConnectionRefusedError".
Definition not_connected : exn := NetworkError "ConnectionResetError".

(** ** One step of a program on the store

    [None] when the program has finished or waits for the semaphore. *)
Definition step {A : Type} (p : prog A) (w : world)
    : option (prog A * world) :=
  match p with
  | Ret _ | Raise _ => None
  | Acquire k =>
      if 0 <? sem w then Some (k, add_log EvAcquire (set_sem (sem w - 1) w))
      else None
  | Release k => Some (k, add_log EvRelease (set_sem (sem w + 1) w))
  | Open _ _ k =>
      match peers w with
      | Some p :: rest =>
          let c := length (conns w) in
          Some (k (inr c),
                add_log (EvOpen c)
                  {| sem := sem w; peers := rest;
                     conns := conns w ++ [connect p]; log := log w |})
      | None :: rest =>
          Some (k (inl refused),
                add_log EvRefused
                  {| sem := sem w; peers := rest; conns := conns w;
                     log := log w |})
      | [] => Some (k (inl refused), add_log EvRefused w)
      end
  | ReadUntil c sep _ k =>
      match conns w !! c with
      | Some cs =>
          let (r, cs') := readuntil sep cs in
          Some (k r, add_log (EvRead c r) (set_conn c cs' w))
      | None => Some (k (inl not_connected), w)
      end
  | Write c data k =>
      match conns w !! c with
      | Some cs => Some (k, add_log (EvWrite c data) (set_conn c (send data cs) w))
      | None => Some (k, w)
      end
  | Close c k =>
      match conns w !! c with
      | Some cs => Some (k, add_log (EvClose c) (set_conn c (shut cs) w))
      | None => Some (k, w)
      end
  | WaitClosed c k =>
      match conns w !! c with
      | Some cs =>
          Some (k match close_error (c_peer cs) with
                  | Some e => inl e
                  | None => inr tt
                  end,
                add_log (EvWaitClosed c) w)
      | None => Some (k (inr tt), w)
      end
  end.

(** ** Running one program to its end *)
Inductive outcome (A : Type) : Type :=
  | Returned (a : A)
  | Raised (e : exn)
  | Blocked.

Arguments Returned {A} a.
Arguments Raised {A} e.
Arguments Blocked {A}.

Fixpoint run {A : Type} (p : prog A) (w : world) : outcome A * world :=
  match p with
  | Ret a => (Returned a, w)
  | Raise e => (Raised e, w)
  | Acquire k =>
      if 0 <? sem w then run k (add_log EvAcquire (set_sem (sem w - 1) w))
      else (Blocked, w)
  | Release k => run k (add_log EvRelease (set_sem (sem w + 1) w))
  | Open _ _ k =>
      match peers w with
      | Some p :: rest =>
          let c := length (conns w) in
          run (k (inr c))
              (add_log (EvOpen c)
                 {| sem := sem w; peers := rest;
                    conns := conns w ++ [connect p]; log := log w |})
      | None :: rest =>
          run (k (inl refused))
              (add_log EvRefused
                 {| sem := sem w; peers := rest; conns := conns w;
                    log := log w |})
      | [] => run (k (inl refused)) (add_log EvRefused w)
      end
  | ReadUntil c sep _ k =>
      match conns w !! c with
      | Some cs =>
          let (r, cs') := readuntil sep cs in
          run (k r) (add_log (EvRead c r) (set_conn c cs' w))
      | None => run (k (inl not_connected)) w
      end
  | Write c data k =>
      match conns w !! c with
      | Some cs => run k (add_log (EvWrite c data) (set_conn c (send data cs) w))
      | None => run k w
      end
  | Close c k =>
      match conns w !! c with
      | Some cs => run k (add_log (EvClose c) (set_conn c (shut cs) w))
      | None => run k w
      end
  | WaitClosed c k =>
      match conns w !! c with
      | Some cs =>
          run (k match close_error (c_peer cs) with
                 | Some e => inl e
                 | None => inr tt
                 end)
              (add_log (EvWaitClosed c) w)
      | None => run (k (inr tt)) w
      end
  end.

(** What the log says was written, and how many connections are open. *)
Fixpoint writes (l : list event) : list (list byte) :=
  match l with
  | [] => []
  | EvWrite _ d :: r => d :: writes r
  | _ :: r => writes r
  end.

Fixpoint count_if {A : Type} (f : A -> bool) (l : list A) : nat :=
  match l with
  | [] => O
  | x :: r => ((if f x then 1 else 0) + count_if f r)%nat
  end.

Definition is_open (cs : conn_state) : bool := negb (closed cs).

Definition open_count (w : world) : nat := count_if is_open (conns w).

(** ** Tasks interleaved at their awaits

    A configuration is the store and the programs of the tasks; a schedule
    names the task that moves next.  A task that cannot move is passed
    over. *)
Definition config (A : Type) : Type := world * list (prog A).

Definition step_task {A : Type} (i : nat) (cfg : config A)
    : option (config A) :=
  match snd cfg !! i with
  | Some p =>
      match step p (fst cfg) with
      | Some (p', w') => Some (w', <[i := p']> (snd cfg))
      | None => None
      end
  | None => None
  end.

Fixpoint run_schedule {A : Type} (sched : list nat) (cfg : config A)
    : config A :=
  match sched with
  | [] => cfg
  | i :: rest =>
      match step_task i cfg with
      | Some cfg' => run_schedule rest cfg'
      | None => run_schedule rest cfg
      end
  end.

Definition finished {A : Type} (p : prog A) : bool :=
  match p with
  | Ret _ | Raise _ => true
  | _ => false
  end.

Definition waits_for_slot {A : Type} (p : prog A) : bool :=
  match p with
  | Acquire _ => true
  | _ => false
  end.

(** A task is in its transaction from the moment it has its slot until it
    has given it back. *)
Definition in_transaction {A : Type} (p : prog A) : bool :=
  negb (finished p || waits_for_slot p).

(** [tx n slot c p]: the program [p], started holding the slot or not and
    with the connection [c] open or none, takes at most [n] steps, opens a
    connection only while it holds the slot and has none, and ends with the
    connection closed and the slot given back. *)
Inductive tx {A : Type} : nat -> bool -> option nat -> prog A -> Prop :=
  | tx_ret n a : tx n false None (Ret a)
  | tx_raise n e : tx n false None (Raise e)
  | tx_acquire n k : tx n true None k -> tx (S n) false None (Acquire k)
  | tx_release n k : tx n false None k -> tx (S n) true None (Release k)
  | tx_open n h pt k :
      (forall e, tx n true None (k (inl e))) ->
      (forall c, tx n true (Some c) (k (inr c))) ->
      tx (S n) true None (Open h pt k)
  | tx_read n c sep t k :
      (forall r, tx n true (Some c) (k r)) ->
      tx (S n) true (Some c) (ReadUntil c sep t k)
  | tx_write n c d k :
      tx n true (Some c) k -> tx (S n) true (Some c) (Write c d k)
  | tx_close n c k :
      tx n true None k -> tx (S n) true (Some c) (Close c k)
  | tx_wait_closed n c k :
      (forall r, tx n true None (k r)) ->
      tx (S n) true None (WaitClosed c k).

(** What is known of a task: a bound on its steps, whether it holds a
    slot, and its open connection. *)
Record ann : Type := { a_bound : nat; a_slot : bool; a_conn : option nat }.

Definition conns_of (anns : list ann) : list nat := omap a_conn anns.

Fixpoint total_bound (anns : list ann) : nat :=
  match anns with
  | [] => O
  | a :: r => (a_bound a + total_bound r)%nat
  end.

Definition has_conn (c : option nat) : Z :=
  match c with
  | Some _ => 1
  | None => 0
  end.

(** The invariant of the pool of three: every task follows [tx]; the free
    slots and the slots held make three; the connections the tasks hold
    are distinct, open, and are all the open connections there are. *)
Definition pool_inv {A : Type} (cfg : config A) (anns : list ann) : Prop :=
  Forall2 (fun p a => tx (a_bound a) (a_slot a) (a_conn a) p) (snd cfg) anns
  /\ 0 <= sem (fst cfg)
  /\ sem (fst cfg) + Z.of_nat (count_if a_slot anns) = 3
  /\ NoDup (conns_of anns)
  /\ Forall (fun c => exists cs, conns (fst cfg) !! c = Some cs
                                 /\ closed cs = false) (conns_of anns)
  /\ open_count (fst cfg) = length (conns_of anns).

(** ** [await asyncio.gather] of a list of awaitables

    The awaitables are started as tasks and run interleaved.  The first
    task that ends with an exception makes the [await] raise it there and
    then, the other tasks being left as they are; tasks that end without
    ever waiting end in the order they were given.  When all have returned,
    the [await] returns their results in the order given.  [Blocked]: the
    schedule is used up and some task has not ended. *)
Fixpoint first_raised {A : Type} (ts : list (prog A)) : option exn :=
  match ts with
  | [] => None
  | Raise e :: _ => Some e
  | _ :: r => first_raised r
  end.

Fixpoint results {A : Type} (ts : list (prog A)) : option (list A) :=
  match ts with
  | [] => Some []
  | Ret a :: r => option_map (cons a) (results r)
  | _ :: _ => None
  end.

Fixpoint gather {A : Type} (sched : list nat) (cfg : config A)
    : outcome (list A) * config A :=
  match first_raised (snd cfg) with
  | Some e => (Raised e, cfg)
  | None =>
      match results (snd cfg) with
      | Some rs => (Returned rs, cfg)
      | None =>
          match sched with
          | [] => (Blocked, cfg)
          | i :: rest =>
              gather rest match step_task i cfg with
                          | Some cfg' => cfg'
                          | None => cfg
                          end
          end
      end
  end.

End Aio.

Import Aio.

(* ===================================================================== *)
(** * The bridge client                                                    *)
(* ===================================================================== *)

Module Bridge.

(** The fields of a [CoolMasterNet] object but its semaphore, which is the
    [sem] of the store (created with value 3 by [__init__]). *)
Record CoolMasterNet : Type := {
  _host : string;
  _port : Z;
  _read_timeout : Z;
  _swing_support : bool
}.

Definition semaphore_initial : Z := 3.

(** [CoolMasterNet(host)] with the defaults of [__init__]. *)
Definition new (host : string) : CoolMasterNet :=
  {| _host := host; _port := 10102; _read_timeout := 1;
     _swing_support := false |}.

Definition prompt_not_found : exn :=
  ConnectionError "CoolMasterNet prompt not found".

(** Lines 46 to 53: the body of a response read up to the terminator. *)
Definition response_body (response : list byte) : exn + string :=
  match decode_ascii response with
  | inl e => inl e
  | inr data =>
      let data :=
        if endswith data (String LF ">") then slice_drop_last 1 data
        else data in
      let data :=
        if endswith data ("OK" +:+ crlf) then slice_drop_last 4 data
        else data in
      inr data
  end.

Definition _make_request (self : CoolMasterNet) (request : string)
    : prog string :=
  async_with_semaphore
    (let* c := open_connection (_host self) (_port self) in
     try_finally
       (let* prompt := wait_for_readuntil c (bytes ">") (_read_timeout self) in
        if negb (bytes_eqb prompt (bytes ">"))
        then Raise prompt_not_found
        else
          let* data := lift (encode_ascii (request +:+ nl)) in
          let* _ := write c data in
          let* response :=
            wait_for_readuntil c (bytes (String LF ">")) (_read_timeout self) in
          lift (response_body response))
       (let* _ := close c in wait_closed c)).

(** [dict(pairs)] for a list of lists of strings: every element must have
    two items; a later key overwrites an earlier one. *)
Fixpoint dict_go (i : nat) (pairs : list (list string))
    (m : gmap string string) : exn + gmap string string :=
  match pairs with
  | [] => inr m
  | [k; v] :: rest => dict_go (S i) rest (<[k := v]> m)
  | kv :: _ =>
      inl (ValueError ("dictionary update sequence element #" +:+ pretty i
                       +:+ " has length " +:+ pretty (length kv)
                       +:+ "; 2 is required"))
  end.

Definition dict (pairs : list (list string)) : exn + gmap string string :=
  dict_go 0 pairs ∅.

Definition info (self : CoolMasterNet) : prog (gmap string string) :=
  let* raw := _make_request self "set" in
  let lines := split crlf (strip raw) in
  let key_values := map (fun line => re_split match_colon line 1) lines in
  lift (dict key_values).

End Bridge.

Import Bridge.

(* ===================================================================== *)
(** * Unit snapshots                                                       *)
(* ===================================================================== *)

Module Unit.

Definition _MODES : list string := ["auto"; "cool"; "dry"; "fan"; "heat"].

(** The module-level tables are dicts in insertion order. *)
Definition _SWING_CHAR_TO_NAME : list (string * string) :=
  [("a", "auto"); ("h", "horizontal"); ("3", "30"); ("4", "45"); ("6", "60");
   ("v", "vertical"); ("x", "stop")].

Fixpoint dict_get (d : list (string * string)) (k : string) : option string :=
  match d with
  | [] => None
  | (k', v) :: r => if String.eqb k k' then Some v else dict_get r k
  end.

(** [d[k] = v] on a dict in insertion order. *)
Fixpoint dict_set (d : list (string * string)) (k v : string)
    : list (string * string) :=
  match d with
  | [] => [(k, v)]
  | (k', v') :: r =>
      if String.eqb k k' then (k, v) :: r else (k', v') :: dict_set r k v
  end.

(** [{value: key for key, value in _SWING_CHAR_TO_NAME.items()}]. *)
Definition _SWING_NAME_TO_CHAR : list (string * string) :=
  fold_left (fun d kv => dict_set d (snd kv) (fst kv)) _SWING_CHAR_TO_NAME [].

Definition SWING_MODES : list string := map snd _SWING_CHAR_TO_NAME.

(** [d[k]], which raises KeyError. *)
Definition dict_item (d : list (string * string)) (k : string)
    : exn + string :=
  match dict_get d k with
  | Some v => inr v
  | None => inl (KeyError k)
  end.

Record CoolMasterNetUnit : Type := {
  _raw : string;
  _swing_raw : string;
  _unit_id : string;
  _bridge : CoolMasterNet;
  _is_on : bool;
  _temperature_unit : string;
  _thermostat : float;
  _temperature : float;
  _fan_speed : string;
  _mode : string;
  _error_code : option string;
  _clean_filter : bool;
  _demand : bool;
  _swing : option string
}.

(** [l[i]] and [s[-1]] with their IndexError. *)
Definition item (l : list string) (i : nat) : exn + string :=
  match l !! i with
  | Some x => inr x
  | None => inl IndexError
  end.

Definition last_item (s : string) : exn + ascii :=
  match last_char s with
  | Some c => inr c
  | None => inl IndexError
  end.

Definition and_then {A B : Type} (r : exn + A) (f : A -> exn + B)
    : exn + B :=
  match r with
  | inl e => inl e
  | inr a => f a
  end.

Notation "'do' x ':=' r 'in' q" := (and_then r (fun x => q))
  (at level 10, x pattern, r at level 100, q at level 200).

Definition unexpected_format (fields : list string) : exn :=
  ConnectionError ("Unexpected status line format: " +:+ str_of_list fields).

(** [CoolMasterNetUnit(bridge, unit_id, raw, swing_raw)]: [__init__], which
    stores its arguments and calls [_parse]. *)
Definition _parse (bridge : CoolMasterNet) (unit_id raw swing_raw : string)
    : exn + CoolMasterNetUnit :=
  let fields := re_split match_ws_plus (strip raw) 0 in
  if negb (length fields =? 9)%nat then inl (unexpected_format fields)
  else
    do f1 := item fields 1 in
    do f2 := item fields 2 in
    do u := last_item f2 in
    let temperature_unit :=
      if Ascii.eqb u "F"%char then "imperial" else "celsius" in
    do thermostat := py_float (slice_drop_last 1 f2) in
    do f3 := item fields 3 in
    do temperature := py_float (slice_drop_last 1 f3) in
    do f4 := item fields 4 in
    do f5 := item fields 5 in
    do f6 := item fields 6 in
    do f7 := item fields 7 in
    do f8 := item fields 8 in
    inr {| _raw := raw; _swing_raw := swing_raw; _unit_id := unit_id;
           _bridge := bridge;
           _is_on := String.eqb f1 "ON";
           _temperature_unit := temperature_unit;
           _thermostat := thermostat;
           _temperature := temperature;
           _fan_speed := lower f4;
           _mode := lower f5;
           _error_code := if negb (String.eqb f6 "OK") then Some f6 else None;
           _clean_filter := String.eqb f7 "#";
           _demand := String.eqb f8 "1";
           _swing := dict_get _SWING_CHAR_TO_NAME swing_raw |}.

Definition create (bridge : CoolMasterNet) (unit_id : string)
    (raw : option string) : prog (CoolMasterNetUnit * string) :=
  let* raw :=
    match raw with
    | None =>
        let* r := _make_request bridge ("ls2 " +:+ unit_id) in Ret (strip r)
    | Some r => Ret r
    end in
  let* swing_raw :=
    if _swing_support bridge
    then let* r := _make_request bridge ("query " +:+ unit_id +:+ " s") in
         Ret (strip r)
    else Ret EmptyString in
  let* u := lift (_parse bridge unit_id raw swing_raw) in
  Ret (u, unit_id).

Definition _make_unit_request (self : CoolMasterNetUnit) (request : string)
    : prog string :=
  _make_request (_bridge self) (replace "UID" (_unit_id self) request).

Definition refresh (self : CoolMasterNetUnit) : prog CoolMasterNetUnit :=
  let* r := create (_bridge self) (_unit_id self) None in Ret (fst r).

Definition unrecognized_mode (value : string) : exn :=
  ValueError ("Unrecognized mode " +:+ value +:+ ". Valid values: "
              +:+ join " " _MODES).

Definition set_mode (self : CoolMasterNetUnit) (value : string)
    : prog CoolMasterNetUnit :=
  if negb (str_in value _MODES) then Raise (unrecognized_mode value)
  else
    let* _ := _make_unit_request self (value +:+ " UID") in
    refresh self.

Definition unrecognized_swing (value : string) : exn :=
  ValueError ("Unrecognized swing mode " +:+ value +:+ ". Valid values: "
              +:+ join ", " SWING_MODES).

Definition unsupported_swing (unit_id value : string) : exn :=
  ValueError ("Unit " +:+ unit_id +:+ " doesn't support swing mode "
              +:+ value +:+ ".").

Definition set_swing (self : CoolMasterNetUnit) (value : string)
    : prog CoolMasterNetUnit :=
  if negb (str_in value SWING_MODES) then Raise (unrecognized_swing value)
  else
    let* code := lift (dict_item _SWING_NAME_TO_CHAR value) in
    let* return_value := _make_unit_request self ("swing UID " +:+ code) in
    if startswith return_value "Unsupported Feature"
    then Raise (unsupported_swing (_unit_id self) value)
    else refresh self.

(** The mutators without a precondition.  [set_fan_speed] formats its
    argument into the request; here the argument is a [str]. *)
Definition set_fan_speed (self : CoolMasterNetUnit) (value : string)
    : prog CoolMasterNetUnit :=
  let* _ := _make_unit_request self ("fspeed UID " +:+ value) in
  refresh self.

Definition turn_on (self : CoolMasterNetUnit) : prog CoolMasterNetUnit :=
  let* _ := _make_unit_request self "on UID" in refresh self.

Definition turn_off (self : CoolMasterNetUnit) : prog CoolMasterNetUnit :=
  let* _ := _make_unit_request self "off UID" in refresh self.

Definition reset_filter (self : CoolMasterNetUnit) : prog CoolMasterNetUnit :=
  let* _ := _make_unit_request self "filt UID" in refresh self.

Definition lockon (self : CoolMasterNetUnit) : prog CoolMasterNetUnit :=
  let* _ := _make_unit_request self "lock UID +o" in refresh self.

Definition unlockon (self : CoolMasterNetUnit) : prog CoolMasterNetUnit :=
  let* _ := _make_unit_request self "lock UID -o" in refresh self.

Definition locktemp (self : CoolMasterNetUnit) : prog CoolMasterNetUnit :=
  let* _ := _make_unit_request self "lock UID +t" in refresh self.

Definition unlocktemp (self : CoolMasterNetUnit) : prog CoolMasterNetUnit :=
  let* _ := _make_unit_request self "lock UID -t" in refresh self.

Definition lockmode (self : CoolMasterNetUnit) : prog CoolMasterNetUnit :=
  let* _ := _make_unit_request self "lock UID +m" in refresh self.

Definition unlockmode (self : CoolMasterNetUnit) : prog CoolMasterNetUnit :=
  let* _ := _make_unit_request self "lock UID -m" in refresh self.

(** [{key: unit for unit, key in pairs}]. *)
Definition dict_of_units (pairs : list (CoolMasterNetUnit * string))
    : gmap string CoolMasterNetUnit :=
  fold_left (fun m p => <[snd p := fst p]> m) pairs ∅.

(** [CoolMasterNet.status]: the transaction [ls2], then one [create] per
    line of the trimmed body, gathered.  [sched] is the order in which the
    gathered tasks move; the store and the tasks are returned with the
    outcome, as the tasks that have not ended go on after an exception. *)
Definition status (self : CoolMasterNet) (sched : list nat) (w : world)
    : outcome (gmap string CoolMasterNetUnit)
      * config (CoolMasterNetUnit * string) :=
  match run (_make_request self "ls2") w with
  | (Returned body, w1) =>
      let status_lines := split crlf (strip body) in
      match gather sched
              (w1, map (fun line => create self (slice 0 6 line) (Some line))
                       status_lines) with
      | (Returned pairs, cfg) => (Returned (dict_of_units pairs), cfg)
      | (Raised e, cfg) => (Raised e, cfg)
      | (Blocked, cfg) => (Blocked, cfg)
      end
  | (Raised e, w1) => (Raised e, (w1, []))
  | (Blocked, w1) => (Blocked, (w1, []))
  end.

End Unit.

Import Unit.

(* ===================================================================== *)
(** * Worlds and lines used in the statements                              *)
(* ===================================================================== *)

(** A bridge object just created: three free slots, nothing opened yet;
    [ps] is how the bridge will behave on the connections to come. *)
Definition fresh_world (ps : list (option peer)) : world :=
  {| sem := semaphore_initial; peers := ps; conns := []; log := [] |}.

(** A peer that shows the prompt, answers any request with [response] and
    then waits. *)
Definition answering (response : string) : peer :=
  {| greeting := bytes ">"; greeting_end := Stalls;
     reply := fun _ => bytes response; reply_end := fun _ => Stalls;
     close_error := None |}.

(** A peer that accepts the connection and sends nothing. *)
Definition silent : peer :=
  {| greeting := []; greeting_end := Stalls;
     reply := fun _ => []; reply_end := fun _ => Stalls;
     close_error := None |}.

(** A peer whose prompt comes after another byte. *)
Definition garbled : peer :=
  {| greeting := bytes "x>"; greeting_end := Stalls;
     reply := fun _ => []; reply_end := fun _ => Stalls;
     close_error := None |}.

Definition scenario_A_line : string :=
  " IEF001 ON    021.0C 023.5C Med  Cool  OK - 0".
Definition scenario_A_response : string :=
  scenario_A_line +:+ crlf +:+ "OK" +:+ crlf +:+ ">".
Definition scenario_B_response : string :=
  "Unit: X" +:+ crlf +:+ "Version: 1.0" +:+ crlf +:+ "OK" +:+ crlf +:+ ">".

(** The snapshot of scenario A, built by the constructor. *)
Definition scenario_A_unit : CoolMasterNetUnit :=
  {| _raw := scenario_A_line; _swing_raw := EmptyString;
     _unit_id := "IEF001"; _bridge := new "bridge";
     _is_on := true; _temperature_unit := "celsius";
     _thermostat := S754_finite false 5910974510923776 (-48);
     _temperature := S754_finite false 6614661952700416 (-48);
     _fan_speed := "med"; _mode := "cool"; _error_code := None;
     _clean_filter := false; _demand := false; _swing := None |}.

(** The operations of a snapshot that return a snapshot. *)
Definition unit_operations (self : CoolMasterNetUnit) (value : string)
    : list (prog CoolMasterNetUnit) :=
  [refresh self; set_mode self value; set_swing self value;
   set_fan_speed self value; turn_on self; turn_off self; reset_filter self;
   lockon self; unlockon self; locktemp self; unlocktemp self;
   lockmode self; unlockmode self].

(** The mutators that send a fixed command, with the text of the command
    before and after the unit identifier. *)
Definition fixed_commands (self : CoolMasterNetUnit)
    : list (prog CoolMasterNetUnit * (string * string)) :=
  [(turn_on self, ("on ", EmptyString));
   (turn_off self, ("off ", EmptyString));
   (reset_filter self, ("filt ", EmptyString));
   (lockon self, ("lock ", " +o")); (unlockon self, ("lock ", " -o"));
   (locktemp self, ("lock ", " +t")); (unlocktemp self, ("lock ", " -t"));
   (lockmode self, ("lock ", " +m")); (unlockmode self, ("lock ", " -m"));
   (set_mode self "auto", ("auto ", EmptyString));
   (set_mode self "cool", ("cool ", EmptyString));
   (set_mode self "dry", ("dry ", EmptyString));
   (set_mode self "fan", ("fan ", EmptyString));
   (set_mode self "heat", ("heat ", EmptyString))].

(** What [create] and [refresh] write for a unit: the listing of the unit
    unless the line is given, then the swing query if the bridge has swing
    support. *)
Definition create_writes (bridge : CoolMasterNet) (unit_id : string)
    (raw : option string) : list (list byte) :=
  match raw with
  | None => [bytes ("ls2 " +:+ unit_id +:+ nl)]
  | Some _ => []
  end
  ++ (if _swing_support bridge
      then [bytes ("query " +:+ unit_id +:+ " s" +:+ nl)]
      else []).

(** The fields of a raw status line, as [_parse] computes them. *)
Definition fields_of (raw : string) : list string :=
  re_split match_ws_plus (strip raw) 0.

(** [r] is [s] without its suffix [suf] when [s] ends with it, [s] itself
    otherwise. *)
Definition without_suffix (suf s r : string) : Prop :=
  (exists p, s = p +:+ suf /\ r = p) \/ ((forall p, s <> p +:+ suf) /\ r = s).

(** The last value bound to [k] in a list of pairs. *)
Fixpoint last_value (k : string) (kvs : list (string * string))
    : option string :=
  match kvs with
  | [] => None
  | (k', v) :: r =>
      match last_value k r with
      | Some v' => Some v'
      | None => if String.eqb k k' then Some v else None
      end
  end.

(** [s] is empty or ends with a character that is not whitespace. *)
Definition clean_end (s : string) : Prop :=
  forall c, last_char s = Some c -> isspace c = false.

(** No piece of a split is empty. *)
Definition all_nonempty (l : list string) : Prop :=
  Forall (fun p => p <> EmptyString) l.

(** The pair of a line that [re.split] cut in two. *)
Definition pair_of (kv : list string) : option (string * string) :=
  match kv with
  | [k; v] => Some (k, v)
  | _ => None
  end.

(** ** The re-serialisation of a reading

    The module has no serialiser.  The one below is the one the property
    on round trips speaks of, written for the format of the status lines:
    a reading is three digits, a point and one digit, followed by C or F
    (021.0C).  The number is printed as [format(x, '05.1f')] prints it:
    correctly rounded to one fractional digit, ties to even, padded with
    zeros after the sign to five characters. *)











(* ===================================================================== *)
(** * Lemmas on the built-ins                                              *)
(* ===================================================================== *)

(** stdpp freezes [String.append] under [simpl]; the proofs below compute
    with it. *)
#[local] Arguments String.append !s1 s2 : simpl nomatch.

Section Strings.

Lemma append_empty_r (s : string) : s +:+ EmptyString = s.
Proof. induction s as [|c s IH]; simpl; [reflexivity | now rewrite IH]. Qed.

Lemma append_assoc (a b c : string) : (a +:+ b) +:+ c = a +:+ (b +:+ c).
Proof. induction a as [|x a IH]; simpl; [reflexivity | now rewrite IH]. Qed.

Lemma length_append (a b : string) :
  String.length (a +:+ b) = (String.length a + String.length b)%nat.
Proof. induction a as [|x a IH]; simpl; [reflexivity | now rewrite IH]. Qed.

Lemma substring_0_append (a b : string) :
  substring 0 (String.length a) (a +:+ b) = a.
Proof. induction a as [|x a IH]; simpl; [now destruct b | now rewrite IH]. Qed.

(** [s[:-n]] of a string that ends with [n] known characters. *)
Lemma slice_drop_last_append (a b : string) :
  slice_drop_last (String.length b) (a +:+ b) = a.
Proof.
  unfold slice_drop_last. rewrite length_append.
  replace (String.length a + String.length b - String.length b)%nat
    with (String.length a) by lia.
  apply substring_0_append.
Qed.

Lemma endswith_spec (s suf : string) :
  endswith s suf = true <-> exists p, s = p +:+ suf.
Proof.
  induction s as [|c s IH]; cbn [endswith].
  - rewrite orb_false_r, String.eqb_eq. split.
    + intros <-. now exists EmptyString.
    + intros [p Hp]. destruct p; simpl in Hp; [assumption | discriminate].
  - rewrite orb_true_iff, IH, String.eqb_eq. split.
    + intros [H | [p Hp]].
      * exists EmptyString. exact H.
      * exists (String c p). simpl. now rewrite Hp.
    + intros [p Hp]. destruct p as [|x p]; simpl in Hp.
      * now left.
      * right. injection Hp as _ Hp. now exists p.
Qed.

Lemma str_in_spec (x : string) (l : list string) :
  str_in x l = true <-> In x l.
Proof.
  unfold str_in. rewrite existsb_exists. split.
  - intros [y [Hy He]]. apply String.eqb_eq in He. now subst.
  - intros H. exists x. split; [assumption | apply String.eqb_refl].
Qed.

Lemma bytes_eqb_spec (a b : list byte) : bytes_eqb a b = true <-> a = b.
Proof.
  revert b. induction a as [|x a IH]; intros [|y b]; simpl; try easy.
  rewrite andb_true_iff, IH. split.
  - intros [H ->]. now rewrite (Byte.byte_dec_bl _ _ H).
  - intros [= -> ->]. split; [now apply Byte.byte_dec_lb | reflexivity].
Qed.

(** ** Tokens of a stripped line are not empty *)

Lemma clean_end_tail (c : ascii) (r : string) :
  clean_end (String c r) -> r <> EmptyString -> clean_end r.
Proof.
  intros H Hr x Hx. apply H. simpl. destruct r; [congruence | exact Hx].
Qed.

Lemma rstrip_clean_end (s : string) : clean_end (rstrip s).
Proof.
  induction s as [|c s IH]; intros x; simpl; [discriminate |].
  destruct (rstrip s) as [|d r] eqn:E.
  - destruct (isspace c) eqn:Hc; simpl; [discriminate |].
    intros [= <-]. exact Hc.
  - intros Hx. apply IH. exact Hx.
Qed.

Lemma lstrip_leading_ws (s : string) : leading_ws (lstrip s) = O.
Proof.
  induction s as [|c s IH]; simpl; [reflexivity |].
  destruct (isspace c) eqn:Hc; [exact IH | simpl; now rewrite Hc].
Qed.

Lemma rstrip_leading_ws (s : string) :
  leading_ws s = O -> leading_ws (rstrip s) = O.
Proof.
  destruct s as [|c s]; simpl; [reflexivity |].
  destruct (isspace c) eqn:Hc; [discriminate | intros _].
  destruct (rstrip s); simpl; now rewrite Hc.
Qed.

Lemma strip_clean_end (s : string) : clean_end (strip s).
Proof. apply rstrip_clean_end. Qed.

Lemma strip_leading_ws (s : string) : leading_ws (strip s) = O.
Proof. apply rstrip_leading_ws, lstrip_leading_ws. Qed.

Lemma ws_split_go_cons (d : nat) (c : ascii) (r : string) :
  re_split_go match_ws_plus 0 d 0 (String c r) =
  if isspace c
  then EmptyString :: re_split_go match_ws_plus 0 (S d) (leading_ws r) r
  else cons_head c (re_split_go match_ws_plus 0 d 0 r).
Proof.
  cbn [re_split_go Nat.eqb orb]. unfold match_ws_plus at 1.
  cbn [leading_ws]. now destruct (isspace c).
Qed.

Lemma ws_split_go_nonempty (s : string) :
  clean_end s -> forall d,
  ((0 < leading_ws s)%nat ->
     all_nonempty (re_split_go match_ws_plus 0 d (leading_ws s) s))
  /\ all_nonempty (tail (re_split_go match_ws_plus 0 d 0 s))
  /\ (leading_ws s = O -> s <> EmptyString ->
      all_nonempty (re_split_go match_ws_plus 0 d 0 s)).
Proof.
  induction s as [|c r IH]; intros Hclean d.
  - simpl. repeat split; try lia; try congruence. constructor.
  - assert (Hskip : isspace c = true -> forall d',
              all_nonempty (re_split_go match_ws_plus 0 d' (leading_ws r) r)).
    { intros Hc d'.
      assert (Hr : r <> EmptyString).
      { intros ->. specialize (Hclean c eq_refl). congruence. }
      destruct (IH (clean_end_tail _ _ Hclean Hr) d') as (IH1 & _ & IH3).
      destruct (leading_ws r) eqn:El; [now apply IH3 | apply IH1; lia]. }
    assert (Htail : all_nonempty (tail (re_split_go match_ws_plus 0 d 0 r))).
    { destruct r as [|x r']; [simpl; constructor |].
      apply IH. apply (clean_end_tail _ _ Hclean). discriminate. }
    rewrite ws_split_go_cons. cbn [leading_ws].
    destruct (isspace c) eqn:Hc.
    + repeat split; intros; try lia; try discriminate.
      * cbn [re_split_go]. now apply Hskip.
      * cbn [tail]. now apply Hskip.
    + repeat split; intros; try lia.
      * destruct (re_split_go match_ws_plus 0 d 0 r);
          [constructor | exact Htail].
      * destruct (re_split_go match_ws_plus 0 d 0 r) as [|p ps]; cbn in *;
          constructor; try discriminate; try constructor; exact Htail.
Qed.

(** Nine fields: none of them is empty. *)
Lemma fields_nonempty (raw : string) :
  length (fields_of raw) = 9%nat -> all_nonempty (fields_of raw).
Proof.
  unfold fields_of, re_split. intros Hlen.
  destruct (ws_split_go_nonempty (strip raw) (strip_clean_end raw) 0%nat)
    as (_ & _ & H).
  apply H; [apply strip_leading_ws |].
  intros E. rewrite E in Hlen. discriminate.
Qed.

Lemma last_char_nonempty (s : string) :
  s <> EmptyString -> exists c, last_char s = Some c.
Proof.
  induction s as [|c s IH]; [congruence | intros _].
  destruct s as [|d s']; [now exists c |].
  destruct IH as [x Hx]; [discriminate |]. exists x. exact Hx.
Qed.

End Strings.

(* ===================================================================== *)
(** * Status lines                                                         *)
(* ===================================================================== *)

Section StatusLines.

Variable bridge : CoolMasterNet.
Variables unit_id swing_raw : string.

Lemma py_float_cases (s : string) :
  (exists x, py_float s = inr x)
  \/ py_float s
     = inl (ValueError ("could not convert string to float: " +:+ repr s)).
Proof.
  unfold py_float.
  destruct (match remove_underscores _ _ with Some u => parse_float u | None => None end);
    [left; eauto | now right].
Qed.

(** Nine fields split into the nine names [_parse] reads. *)
Lemma nine_fields (raw : string) :
  length (fields_of raw) = 9%nat ->
  exists f0 f1 f2 f3 f4 f5 f6 f7 f8,
    fields_of raw = [f0; f1; f2; f3; f4; f5; f6; f7; f8].
Proof.
  intros H. destruct (fields_of raw) as [|f0 [|f1 [|f2 [|f3 [|f4 [|f5 [|f6
    [|f7 [|f8 [|f9 l]]]]]]]]]]; try discriminate.
  now exists f0, f1, f2, f3, f4, f5, f6, f7, f8.
Qed.

(** The unit suffix is always there to be read: [fields[2][-1]] does not
    raise on a line of nine fields. *)
Lemma unit_suffix_present (raw f2 : string) :
  length (fields_of raw) = 9%nat -> fields_of raw !! 2%nat = Some f2 ->
  exists c, last_char f2 = Some c.
Proof.
  intros Hlen Hf2. apply last_char_nonempty.
  pose proof (fields_nonempty raw Hlen) as Hall.
  unfold all_nonempty in Hall. rewrite Forall_forall in Hall.
  apply Hall. eapply list_elem_of_lookup_2. exact Hf2.
Qed.

(** What [_parse] does on a line of nine fields, up to the two numbers. *)
Lemma parse_nine (raw : string) f0 f1 f2 f3 f4 f5 f6 f7 f8 c :
  fields_of raw = [f0; f1; f2; f3; f4; f5; f6; f7; f8] ->
  last_char f2 = Some c ->
  _parse bridge unit_id raw swing_raw =
  do thermostat := py_float (slice_drop_last 1 f2) in
  do temperature := py_float (slice_drop_last 1 f3) in
  inr {| _raw := raw; _swing_raw := swing_raw; _unit_id := unit_id;
         _bridge := bridge;
         _is_on := String.eqb f1 "ON";
         _temperature_unit :=
           if Ascii.eqb c "F"%char then "imperial" else "celsius";
         _thermostat := thermostat;
         _temperature := temperature;
         _fan_speed := lower f4;
         _mode := lower f5;
         _error_code := if negb (String.eqb f6 "OK") then Some f6 else None;
         _clean_filter := String.eqb f7 "#";
         _demand := String.eqb f8 "1";
         _swing := dict_get _SWING_CHAR_TO_NAME swing_raw |}.
Proof.
  intros Hf Hc. unfold _parse. fold (fields_of raw). rewrite Hf.
  cbn [length Nat.eqb negb item lookup list_lookup and_then].
  unfold last_item. rewrite Hc. cbn [and_then].
  destruct (py_float (slice_drop_last 1 f2)); cbn [and_then]; [reflexivity |].
  destruct (py_float (slice_drop_last 1 f3)); reflexivity.
Qed.

(** C3.  A raw status line whose trimmed text does not split into nine
    fields makes the construction of a snapshot fail with the
    ConnectionError that shows the fields found; when the line is handed to
    [create] of a bridge without swing support, [create] raises it and
    touches nothing. *)
Theorem parse_rejects_field_count (raw : string) :
  length (fields_of raw) <> 9%nat ->
  _parse bridge unit_id raw swing_raw
  = inl (ConnectionError ("Unexpected status line format: "
                          +:+ str_of_list (fields_of raw)))
  /\ (_swing_support bridge = false ->
      forall w, run (create bridge unit_id (Some raw)) w
                = (Raised (unexpected_format (fields_of raw)), w)).
Proof.
  intros Hlen.
  assert (E : _parse bridge unit_id raw swing_raw
              = inl (unexpected_format (fields_of raw))).
  { unfold _parse. fold (fields_of raw).
    destruct (length (fields_of raw) =? 9)%nat eqn:El; [| reflexivity].
    apply Nat.eqb_eq in El. contradiction. }
  split; [exact E |].
  intros Hsw w. unfold create. rewrite Hsw. cbn [bind].
  unfold _parse. fold (fields_of raw).
  destruct (length (fields_of raw) =? 9)%nat eqn:El.
  - apply Nat.eqb_eq in El. contradiction.
  - reflexivity.
Qed.

(** C10.  On a line of nine fields nothing but the count is checked: when
    the thermostat or the temperature token, less its last character, is
    not a number, the construction fails with the ValueError of [float]
    for that text (the thermostat first), and never with the
    ConnectionError of a malformed line. *)
Theorem parse_numeric_error (raw f2 f3 : string) :
  length (fields_of raw) = 9%nat ->
  fields_of raw !! 2%nat = Some f2 ->
  fields_of raw !! 3%nat = Some f3 ->
  (forall x, py_float (slice_drop_last 1 f2) <> inr x)
  \/ (forall y, py_float (slice_drop_last 1 f3) <> inr y) ->
  exists text,
    (text = slice_drop_last 1 f2
     \/ (exists x, py_float (slice_drop_last 1 f2) = inr x)
        /\ text = slice_drop_last 1 f3)
    /\ _parse bridge unit_id raw swing_raw
       = inl (ValueError ("could not convert string to float: "
                          +:+ repr text))
    /\ forall msg, _parse bridge unit_id raw swing_raw
                   <> inl (ConnectionError msg).
Proof.
  intros Hlen H2 H3 Hbad.
  destruct (unit_suffix_present raw f2 Hlen H2) as [c Hc].
  destruct (nine_fields raw Hlen)
    as (f0 & f1 & g2 & g3 & f4 & f5 & f6 & f7 & f8 & Hf).
  rewrite Hf in H2, H3. cbn in H2, H3.
  injection H2 as ->. injection H3 as ->.
  rewrite (parse_nine raw _ _ _ _ _ _ _ _ _ c Hf Hc).
  destruct (py_float_cases (slice_drop_last 1 f2)) as [[x Hx] | E2].
  - destruct (py_float_cases (slice_drop_last 1 f3)) as [[y Hy] | E3].
    + destruct Hbad as [Hb | Hb]; [now apply Hb in Hx | now apply Hb in Hy].
    + exists (slice_drop_last 1 f3). rewrite Hx, E3. cbn [and_then].
      repeat split; eauto; discriminate.
  - exists (slice_drop_last 1 f2). rewrite E2. cbn [and_then].
    repeat split; auto; discriminate.
Qed.






End StatusLines.

(** C4.  The status line of scenario A parses to a unit that is on, with
    thermostat 21.0, temperature 23.5 in celsius, fan speed med, mode cool,
    no error code, a clean filter and no demand; and so does the snapshot
    that [create] builds from the response of the bridge to [ls2 IEF001]. *)
Theorem scenario_A_snapshot (host : string) :
  let expected (u : CoolMasterNetUnit) : Prop :=
    _is_on u = true
    /\ float_is (_thermostat u) 21 1
    /\ float_is (_temperature u) 235 10
    /\ _temperature_unit u = "celsius"
    /\ _fan_speed u = "med"
    /\ _mode u = "cool"
    /\ _error_code u = None
    /\ _clean_filter u = false
    /\ _demand u = false in
  (exists u, _parse (new host) "IEF001" scenario_A_line EmptyString = inr u
             /\ expected u)
  /\ (exists u w,
        run (create (new host) "IEF001" None)
            (fresh_world [Some (answering scenario_A_response)])
        = (Returned (u, "IEF001"), w)
        /\ writes (log w) = [bytes ("ls2 IEF001" +:+ nl)]
        /\ expected u).
Proof.
  cbv zeta. split.
  - eexists. split; [vm_compute; reflexivity |]. vm_compute. tauto.
  - eexists. eexists. split; [vm_compute; reflexivity |]. vm_compute. tauto.
Qed.

Lemma parse_rejects_field_count_witness :
  _parse (new "bridge") "IEF001" "IEF001 ON 021.0C" EmptyString
  = inl (ConnectionError
           "Unexpected status line format: ['IEF001', 'ON', '021.0C']").
Proof.
  apply (parse_rejects_field_count (new "bridge") "IEF001" EmptyString
           "IEF001 ON 021.0C").
  vm_compute. discriminate.
Defined.

(** Field 2 is the single character C: the text given to [float] is
    empty. *)
Lemma parse_numeric_error_witness :
  exists text,
    (text = EmptyString
     \/ (exists x, py_float EmptyString = inr x) /\ text = "023.5")
    /\ _parse (new "bridge") "IEF001"
         "IEF001 ON C 023.5C Med Cool OK - 0" EmptyString
       = inl (ValueError ("could not convert string to float: "
                          +:+ repr text))
    /\ forall msg,
         _parse (new "bridge") "IEF001"
           "IEF001 ON C 023.5C Med Cool OK - 0" EmptyString
         <> inl (ConnectionError msg).
Proof.
  apply (parse_numeric_error (new "bridge") "IEF001" EmptyString
           "IEF001 ON C 023.5C Med Cool OK - 0" "C" "023.5C");
    [reflexivity | reflexivity | reflexivity |].
  left. intros x. vm_compute. discriminate.
Defined.

(** Field 2 is abcC: [float] is given abc. *)
Example parse_non_numeric_prefix :
  _parse (new "bridge") "IEF001" "IEF001 ON abcC 023.5C Med Cool OK - 0"
         EmptyString
  = inl (ValueError "could not convert string to float: 'abc'").
Proof. vm_compute. reflexivity. Qed.



(* ===================================================================== *)
(** * Running programs                                                     *)
(* ===================================================================== *)

Section Running.

Context {A B : Type}.

Lemma run_bind (p : prog A) (f : A -> prog B) (w : world) :
  run (bind p f) w =
  match run p w with
  | (Returned a, w') => run (f a) w'
  | (Raised e, w') => (Raised e, w')
  | (Blocked, w') => (Blocked, w')
  end.
Proof.
  revert w. induction p as [a|e|k IH|k IH|h pt k IH|c sep t k IH|c d k IH
                            |c k IH|c k IH]; intros w; cbn [bind run];
    try reflexivity.
  - destruct (0 <? sem w); [apply IH | reflexivity].
  - apply IH.
  - destruct (peers w) as [|[q|] rest]; apply IH.
  - destruct (conns w !! c) as [cs|]; [| apply IH].
    destruct (readuntil sep cs). apply IH.
  - destruct (conns w !! c); apply IH.
  - destruct (conns w !! c); apply IH.
  - destruct (conns w !! c); apply IH.
Qed.

(** One step, then the rest: the two runners agree. *)
Lemma run_step (p p' : prog A) (w w' : world) :
  step p w = Some (p', w') -> run p w = run p' w'.
Proof.
  destruct p; cbn [step run]; try discriminate.
  - destruct (0 <? sem w); [now intros [= <- <-] | discriminate].
  - now intros [= <- <-].
  - destruct (peers w) as [|[q|] rest]; now intros [= <- <-].
  - destruct (conns w !! c) as [cs|]; [| now intros [= <- <-]].
    destruct (readuntil sep cs). now intros [= <- <-].
  - destruct (conns w !! c); now intros [= <- <-].
  - destruct (conns w !! c); now intros [= <- <-].
  - destruct (conns w !! c); now intros [= <- <-].
Qed.

End Running.

(** ** The operations on the connection opened last

    In a transaction the connection in use is the last of the table. *)
Section LastConnection.

Context {A : Type}.
Variables (s : Z) (ps : list (option peer)) (l : list conn_state)
          (cs : conn_state) (lg : list event).

Lemma lookup_last : (l ++ [cs]) !! length l = Some cs.
Proof. now apply list_lookup_middle. Qed.

Lemma insert_last (cs' : conn_state) :
  <[length l := cs']> (l ++ [cs]) = l ++ [cs'].
Proof.
  rewrite insert_app_r_alt by lia. now rewrite Nat.sub_diag.
Qed.

Lemma run_read_last (sep : list byte) (t : Z) (k : exn + list byte -> prog A) :
  run (ReadUntil (length l) sep t k)
      {| sem := s; peers := ps; conns := l ++ [cs]; log := lg |} =
  run (k (fst (readuntil sep cs)))
      {| sem := s; peers := ps; conns := l ++ [snd (readuntil sep cs)];
         log := lg ++ [EvRead (length l) (fst (readuntil sep cs))] |}.
Proof.
  cbn [run conns]. rewrite lookup_last.
  destruct (readuntil sep cs) as [r cs']. cbn [fst snd].
  unfold add_log, set_conn. cbn. now rewrite insert_last.
Qed.

Lemma run_write_last (data : list byte) (k : prog A) :
  run (Write (length l) data k)
      {| sem := s; peers := ps; conns := l ++ [cs]; log := lg |} =
  run k {| sem := s; peers := ps; conns := l ++ [send data cs];
           log := lg ++ [EvWrite (length l) data] |}.
Proof.
  cbn [run conns]. rewrite lookup_last.
  unfold add_log, set_conn. cbn. now rewrite insert_last.
Qed.

Lemma run_close_last (k : prog A) :
  run (Close (length l) k)
      {| sem := s; peers := ps; conns := l ++ [cs]; log := lg |} =
  run k {| sem := s; peers := ps; conns := l ++ [shut cs];
           log := lg ++ [EvClose (length l)] |}.
Proof.
  cbn [run conns]. rewrite lookup_last.
  unfold add_log, set_conn. cbn. now rewrite insert_last.
Qed.

Lemma run_wait_closed_last (k : exn + unit -> prog A) :
  run (WaitClosed (length l) k)
      {| sem := s; peers := ps; conns := l ++ [cs]; log := lg |} =
  run (k match close_error (c_peer cs) with
         | Some e => inl e
         | None => inr tt
         end)
      {| sem := s; peers := ps; conns := l ++ [cs];
         log := lg ++ [EvWaitClosed (length l)] |}.
Proof. cbn [run conns]. now rewrite lookup_last. Qed.

End LastConnection.

Lemma writes_app (a b : list event) : writes (a ++ b) = writes a ++ writes b.
Proof.
  induction a as [|e a IH]; [reflexivity |].
  destruct e; cbn [writes app]; now rewrite ?IH.
Qed.

Lemma c_peer_readuntil (sep : list byte) (cs : conn_state) :
  c_peer (snd (readuntil sep cs)) = c_peer cs.
Proof.
  unfold readuntil. destruct (find_sep sep (inbuf cs)).
  - now destruct (limit <? Z.of_nat n).
  - destruct (_ && _); [reflexivity | now destruct (inend cs)].
Qed.

Lemma written_readuntil (sep : list byte) (cs : conn_state) :
  written (snd (readuntil sep cs)) = written cs.
Proof.
  unfold readuntil. destruct (find_sep sep (inbuf cs)).
  - now destruct (limit <? Z.of_nat n).
  - destruct (_ && _); [reflexivity | now destruct (inend cs)].
Qed.

Lemma c_peer_send (data : list byte) (cs : conn_state) :
  c_peer (send data cs) = c_peer cs.
Proof. unfold send. now destruct (inend cs). Qed.

(* ===================================================================== *)
(** * The transaction                                                      *)
(* ===================================================================== *)

Section Transaction.

Variable self : CoolMasterNet.
Variable request : string.

(** The transaction up to the read of the prompt, on a store with a free
    slot whose next peer is [p]. *)
Lemma make_request_opens (w : world) (p : peer) (rest : list (option peer)) :
  0 < sem w -> peers w = Some p :: rest ->
  run (_make_request self request) w =
  run (try_finally
         (try_finally
            (let* prompt := lift (fst (readuntil (bytes ">") (connect p))) in
             if negb (bytes_eqb prompt (bytes ">"))
             then Raise prompt_not_found
             else
               let* data := lift (encode_ascii (request +:+ nl)) in
               let* _ := write (length (conns w)) data in
               let* response :=
                 wait_for_readuntil (length (conns w)) (bytes (String LF ">"))
                   (_read_timeout self) in
               lift (response_body response))
            (let* _ := close (length (conns w)) in
             wait_closed (length (conns w))))
         (Release (Ret tt)))
      {| sem := sem w - 1; peers := rest;
         conns := conns w ++ [snd (readuntil (bytes ">") (connect p))];
         log := log w ++ [EvAcquire; EvOpen (length (conns w));
                          EvRead (length (conns w))
                                 (fst (readuntil (bytes ">") (connect p)))] |}.
Proof.
  intros Hsem Hpeers.
  unfold _make_request, async_with_semaphore, open_connection.
  cbn [run bind try_finally].
  apply Z.ltb_lt in Hsem. rewrite Hsem.
  cbn [peers add_log set_sem sem conns log]. rewrite Hpeers.
  cbn [lift bind try_finally wait_for_readuntil].
  unfold add_log. cbn [sem peers conns log].
  rewrite run_read_last. repeat rewrite <- app_assoc. reflexivity.
Qed.

(** The two [finally] clauses, once the body of the [try] has its
    outcome [r]: the connection is closed, the slot given back, and an
    error of [wait_closed] takes the place of the outcome. *)
Lemma run_cleanup (r : exn + string) (s : Z) (ps : list (option peer))
    (l : list conn_state) (cs : conn_state) (lg : list event) :
  run (try_finally
         (try_finally (lift r)
            (let* _ := close (length l) in wait_closed (length l)))
         (Release (Ret tt)))
      {| sem := s; peers := ps; conns := l ++ [cs]; log := lg |}
  = (match close_error (c_peer cs), r with
     | Some e, _ => Raised e
     | None, inl e => Raised e
     | None, inr a => Returned a
     end,
     {| sem := s + 1; peers := ps; conns := l ++ [shut cs];
        log := lg ++ [EvClose (length l); EvWaitClosed (length l);
                      EvRelease] |}).
Proof.
  destruct r as [e|a]; cbn [lift try_finally bind close wait_closed];
    rewrite run_close_last, run_wait_closed_last; cbn [shut c_peer];
    destruct (close_error (c_peer cs)); cbn [lift bind try_finally run];
    unfold add_log, set_sem; cbn [sem peers conns log];
    repeat rewrite <- app_assoc; reflexivity.
Qed.

Lemma response_body_spec (response : list byte) (text : string) :
  decode_ascii response = inr text ->
  exists d1 body,
    response_body response = inr body
    /\ ((exists q, text = q +:+ String LF ">" /\ d1 = q +:+ nl)
        \/ ((forall q, text <> q +:+ String LF ">") /\ d1 = text))
    /\ without_suffix ("OK" +:+ crlf) d1 body.
Proof.
  intros Hdec. unfold response_body. rewrite Hdec.
  set (d1 := if endswith text (String LF ">") then slice_drop_last 1 text
             else text).
  exists d1. eexists. split; [reflexivity |]. split.
  - subst d1. destruct (endswith text (String LF ">")) eqn:E.
    + apply endswith_spec in E. destruct E as [q Hq]. left. exists q.
      split; [exact Hq |]. rewrite Hq.
      change (String LF ">") with (nl +:+ ">"). rewrite <- append_assoc.
      apply (slice_drop_last_append (q +:+ nl) ">").
    + right. split; [| reflexivity]. intros q Hq.
      assert (endswith text (String LF ">") = true)
        by (apply endswith_spec; now exists q).
      congruence.
  - unfold without_suffix. destruct (endswith d1 ("OK" +:+ crlf)) eqn:E.
    + apply endswith_spec in E. destruct E as [q Hq]. left. exists q.
      split; [exact Hq |]. rewrite Hq.
      apply (slice_drop_last_append q ("OK" +:+ crlf)).
    + right. split; [| reflexivity]. intros q Hq.
      assert (endswith d1 ("OK" +:+ crlf) = true)
        by (apply endswith_spec; now exists q).
      congruence.
Qed.

(** C1, as amended.  When the read of the prompt times out the transaction
    fails with TimeoutError, and when it returns bytes other than the
    single prompt character it fails with the ConnectionError "prompt not
    found".  Either way nothing is written: the log has no new write, the
    connection has received nothing, it is closed, and the slot is back.
    (An error of [wait_closed] is raised in place of these.) *)
Theorem prompt_failure_sends_nothing (w : world) (p : peer)
    (rest : list (option peer)) (r : exn + list byte) :
  0 < sem w -> peers w = Some p :: rest ->
  fst (readuntil (bytes ">") (connect p)) = r ->
  r = inl TimeoutError
  \/ (exists prompt, r = inr prompt /\ prompt <> bytes ">") ->
  exists w' cs,
    run (_make_request self request) w
    = (Raised match close_error p, r with
              | Some e, _ => e
              | None, inl _ => TimeoutError
              | None, inr _ => prompt_not_found
              end, w')
    /\ writes (log w') = writes (log w)
    /\ conns w' = conns w ++ [cs]
    /\ written cs = [] /\ closed cs = true
    /\ sem w' = sem w.
Proof.
  intros Hsem Hpeers Hr Hcase.
  rewrite (make_request_opens w p rest Hsem Hpeers). rewrite Hr.
  assert (Hbody : exists e,
    (let* prompt := lift r in
     if negb (bytes_eqb prompt (bytes ">"))
     then Raise prompt_not_found
     else
       let* data := lift (encode_ascii (request +:+ nl)) in
       let* _ := write (length (conns w)) data in
       let* response :=
         wait_for_readuntil (length (conns w)) (bytes (String LF ">"))
           (_read_timeout self) in
       lift (response_body response)) = lift (inl e)
    /\ e = match r with inl _ => TimeoutError | inr _ => prompt_not_found end).
  { destruct Hcase as [-> | (prompt & -> & Hne)].
    - exists TimeoutError. split; reflexivity.
    - exists prompt_not_found. cbn [lift bind].
      destruct (bytes_eqb prompt (bytes ">")) eqn:E.
      + apply bytes_eqb_spec in E. contradiction.
      + split; reflexivity. }
  destruct Hbody as (e & -> & He).
  rewrite run_cleanup. rewrite c_peer_readuntil. cbn [connect c_peer].
  eexists. exists (shut (snd (readuntil (bytes ">") (connect p)))). split.
  - f_equal. destruct (close_error p); [reflexivity |]. rewrite He.
    now destruct r.
  - cbn [log conns sem shut written closed].
    rewrite !writes_app. cbn [writes]. rewrite !app_nil_r.
    rewrite written_readuntil. cbn [connect written].
    repeat split; lia.
Qed.

(** C2.  When the prompt is right and the response has been read up to
    the terminator, the transaction returns the ASCII text of the response
    less one final [>] if the text ends with a line feed and [>], less a
    final OK CR LF if this is then present, and otherwise unchanged. *)
Theorem response_body_framing (w : world) (p : peer)
    (rest : list (option peer)) (cs1 : conn_state)
    (data response : list byte) (text : string) :
  0 < sem w -> peers w = Some p :: rest ->
  readuntil (bytes ">") (connect p) = (inr (bytes ">"), cs1) ->
  encode_ascii (request +:+ nl) = inr data ->
  fst (readuntil (bytes (String LF ">")) (send data cs1)) = inr response ->
  close_error p = None ->
  decode_ascii response = inr text ->
  exists d1 body w',
    run (_make_request self request) w = (Returned body, w')
    /\ ((exists q, text = q +:+ String LF ">" /\ d1 = q +:+ nl)
        \/ ((forall q, text <> q +:+ String LF ">") /\ d1 = text))
    /\ without_suffix ("OK" +:+ crlf) d1 body.
Proof.
  intros Hsem Hpeers Hprompt Henc Hresp Hclose Hdec.
  destruct (response_body_spec response text Hdec)
    as (d1 & body & Hbody & H1 & H2).
  exists d1, body. eexists. split; [| split; assumption].
  rewrite (make_request_opens w p rest Hsem Hpeers). rewrite Hprompt.
  cbn [fst snd lift bind]. rewrite Henc.
  change (bytes_eqb (bytes ">") (bytes ">")) with true.
  cbn [negb lift bind write try_finally wait_for_readuntil].
  rewrite run_write_last, run_read_last. rewrite Hresp.
  change (try_finally (try_finally (let* response0 := lift (inr response) in
                                    lift (response_body response0)) ?a) ?b)
    with (try_finally (try_finally (lift (response_body response)) a) b).
  rewrite run_cleanup, Hbody, c_peer_readuntil, c_peer_send.
  assert (Hp : c_peer cs1 = p).
  { pose proof (c_peer_readuntil (bytes ">") (connect p)) as E.
    rewrite Hprompt in E. exact E. }
  rewrite Hp, Hclose. reflexivity.
Qed.

(** A transaction that returns has put its request on the wire, once, and
    nothing else; the slot and the connection are given back. *)
Lemma make_request_returned (w w' : world) (body : string) :
  run (_make_request self request) w = (Returned body, w') ->
  writes (log w') = writes (log w) ++ [bytes (request +:+ nl)]
  /\ sem w' = sem w.
Proof.
  destruct (0 <? sem w) eqn:Hsem.
  2:{ unfold _make_request, async_with_semaphore. cbn [run].
      rewrite Hsem. discriminate. }
  apply Z.ltb_lt in Hsem.
  destruct (peers w) as [|[p|] rest] eqn:Hpeers.
  1,3: unfold _make_request, async_with_semaphore, open_connection;
       cbn [run bind try_finally];
       rewrite (proj2 (Z.ltb_lt _ _) Hsem);
       cbn [peers add_log set_sem sem conns log]; rewrite Hpeers;
       discriminate.
  rewrite (make_request_opens w p rest Hsem Hpeers).
  destruct (fst (readuntil (bytes ">") (connect p))) as [e|prompt].
  { change (let* prompt := lift (inl e) in _) with (@lift string (inl e)).
    rewrite run_cleanup. now destruct (close_error _). }
  cbn [lift bind].
  destruct (negb (bytes_eqb prompt (bytes ">"))).
  { change (Raise prompt_not_found) with (@lift string (inl prompt_not_found)).
    rewrite run_cleanup. now destruct (close_error _). }
  unfold encode_ascii.
  destruct (forall_chars is_ascii_char (request +:+ nl)).
  2:{ change (let* data := lift (inl UnicodeEncodeError) in _)
        with (@lift string (inl UnicodeEncodeError)).
      rewrite run_cleanup. now destruct (close_error _). }
  cbn [lift bind write try_finally wait_for_readuntil].
  rewrite run_write_last, run_read_last.
  match goal with
  | |- context [try_finally (try_finally (bind (lift ?r) _) _) _] =>
      destruct r as [e|response]
  end.
  { change (let* response := lift (inl e) in _) with (@lift string (inl e)).
    rewrite run_cleanup. now destruct (close_error _). }
  change (let* response0 := lift (inr response) in
          lift (response_body response0))
    with (lift (response_body response)).
  rewrite run_cleanup.
  destruct (close_error _); [discriminate |].
  destruct (response_body response); [discriminate |].
  intros [= _ <-]. cbn [log sem]. rewrite !writes_app. cbn [writes].
  rewrite !app_nil_r. split; [reflexivity | lia].
Qed.

End Transaction.

Lemma prompt_failure_sends_nothing_witness :
  exists w' cs,
    run (_make_request (new "bridge") "ls2") (fresh_world [Some garbled])
    = (Raised prompt_not_found, w')
    /\ writes (log w') = []
    /\ conns w' = [cs]
    /\ written cs = [] /\ closed cs = true
    /\ sem w' = 3.
Proof.
  apply (prompt_failure_sends_nothing (new "bridge") "ls2"
           (fresh_world [Some garbled]) garbled [] (inr (bytes "x>")));
    [reflexivity | reflexivity | reflexivity |].
  right. exists (bytes "x>"). split; [reflexivity | discriminate].
Defined.

(** C1, the claim as stated fails: a peer that never sends the prompt makes
    the read time out, and the transaction then raises TimeoutError, not
    the ConnectionError "prompt not found". *)
Lemma prompt_timeout_counterexample :
  fst (readuntil (bytes ">") (connect silent)) = inl TimeoutError
  /\ fst (run (_make_request (new "bridge") "ls2") (fresh_world [Some silent]))
     = Raised TimeoutError
  /\ fst (run (_make_request (new "bridge") "ls2") (fresh_world [Some silent]))
     <> Raised prompt_not_found.
Proof.
  split; [reflexivity |]. split; [reflexivity |]. discriminate.
Qed.

Lemma response_body_framing_witness :
  exists d1 body w',
    run (_make_request (new "bridge") "ls2 IEF001")
        (fresh_world [Some (answering scenario_A_response)])
    = (Returned body, w')
    /\ ((exists q, scenario_A_response = q +:+ String LF ">"
                   /\ d1 = q +:+ nl)
        \/ ((forall q, scenario_A_response <> q +:+ String LF ">")
            /\ d1 = scenario_A_response))
    /\ without_suffix ("OK" +:+ crlf) d1 body.
Proof.
  eapply (response_body_framing (new "bridge") "ls2 IEF001"
            (fresh_world [Some (answering scenario_A_response)])
            (answering scenario_A_response) [] _
            (bytes ("ls2 IEF001" +:+ nl)) (bytes scenario_A_response)
            scenario_A_response);
    reflexivity.
Defined.

(* ===================================================================== *)
(** * The mutators with a precondition                                     *)
(* ===================================================================== *)

Section Mutators.

Variable self : CoolMasterNetUnit.

(** The code of a swing mode, and the request [set_swing] makes of it. *)
Lemma swing_request (value : string) :
  In value SWING_MODES ->
  exists code,
    dict_get _SWING_NAME_TO_CHAR value = Some code
    /\ dict_get _SWING_CHAR_TO_NAME code = Some value
    /\ str_in value SWING_MODES = true
    /\ replace "UID" (_unit_id self) ("swing UID " +:+ code)
       = "swing " +:+ _unit_id self +:+ " " +:+ code.
Proof.
  intros Hin. cbn in Hin.
  repeat (destruct Hin as [<- | Hin];
          [eexists; repeat split; reflexivity |]).
  contradiction.
Qed.

(** C6.  For a value outside auto, cool, dry, fan, heat, [set_mode] raises
    the ValueError that names the value and has no effect at all: the
    store is as it was, and the program has no step to take, so no
    transaction begins. *)
Theorem set_mode_rejects_unknown (value : string) (w : world) :
  ~ In value _MODES ->
  run (set_mode self value) w
  = (Raised (ValueError ("Unrecognized mode " +:+ value
                         +:+ ". Valid values: auto cool dry fan heat")), w)
  /\ step (set_mode self value) w = None.
Proof.
  intros Hnot.
  assert (E : str_in value _MODES = false).
  { destruct (str_in value _MODES) eqn:E; [| reflexivity].
    apply str_in_spec in E. contradiction. }
  unfold set_mode. rewrite E. split; reflexivity.
Qed.

(** C7.  For a swing mode of the table, when the bridge answers the request
    [swing id code] with a body that starts with "Unsupported Feature",
    [set_swing] raises the ValueError that names the unit and the mode, and
    the store is the one the single transaction left: one request written,
    no refresh.  For a value outside the table it raises a ValueError and
    has no effect at all. *)
Theorem set_swing_unsupported_or_unknown (value : string) (w : world) :
  (In value SWING_MODES ->
   exists code,
     dict_get _SWING_NAME_TO_CHAR value = Some code
     /\ forall body w',
          run (_make_request (_bridge self)
                 ("swing " +:+ _unit_id self +:+ " " +:+ code)) w
          = (Returned body, w') ->
          startswith body "Unsupported Feature" = true ->
          run (set_swing self value) w
          = (Raised (ValueError ("Unit " +:+ _unit_id self
                                 +:+ " doesn't support swing mode "
                                 +:+ value +:+ ".")), w')
          /\ writes (log w')
             = writes (log w)
               ++ [bytes ("swing " +:+ _unit_id self +:+ " " +:+ code +:+ nl)])
  /\ (~ In value SWING_MODES ->
      run (set_swing self value) w = (Raised (unrecognized_swing value), w)
      /\ step (set_swing self value) w = None).
Proof.
  split.
  - intros Hin.
    destruct (swing_request value Hin) as (code & Hcode & _ & Hstr & Hreq).
    exists code. split; [exact Hcode |].
    intros body w' Hrun Hstart. split.
    + unfold set_swing. rewrite Hstr. cbn [negb].
      unfold dict_item. rewrite Hcode. cbn [lift bind].
      unfold _make_unit_request. rewrite Hreq.
      rewrite run_bind, Hrun, Hstart. reflexivity.
    + destruct (make_request_returned _ _ _ _ _ Hrun) as [Hw _].
      rewrite Hw. now rewrite !append_assoc.
  - intros Hnot.
    assert (E : str_in value SWING_MODES = false).
    { destruct (str_in value SWING_MODES) eqn:E; [| reflexivity].
      apply str_in_spec in E. contradiction. }
    unfold set_swing. rewrite E. split; reflexivity.
Qed.

End Mutators.

(* ===================================================================== *)
(** * [info]                                                               *)
(* ===================================================================== *)

Lemma dict_go_spec (lines : list (list string)) :
  forall (kvs : list (string * string)) (i : nat) (m : gmap string string),
    map pair_of lines = map Some kvs ->
    exists m',
      dict_go i lines m = inr m'
      /\ forall k, m' !! k = match last_value k kvs with
                             | Some v => Some v
                             | None => m !! k
                             end.
Proof.
  induction lines as [|line rest IH]; intros [|[k0 v0] kvs] i m Hmap;
    try discriminate.
  - exists m. split; reflexivity.
  - cbn [map] in Hmap. injection Hmap as Hline Hrest.
    destruct line as [|a [|b [|c l]]]; try discriminate.
    cbn [pair_of] in Hline. injection Hline as -> ->.
    destruct (IH kvs (S i) (<[k0 := v0]> m) Hrest) as (m' & Hm' & Hlook).
    exists m'. split; [exact Hm' |].
    intros k. rewrite Hlook. cbn [last_value].
    destruct (last_value k kvs); [reflexivity |].
    rewrite lookup_insert.
    destruct (String.eqb_spec k k0) as [-> | Hne].
    + now rewrite decide_True.
    + now rewrite decide_False by congruence.
Qed.

(** ** The cut at the first colon *)

Lemma split_no_more (m : string -> option nat) (s : string) :
  forall skip, re_split_go m 1 1 skip s = [drop_chars skip s].
Proof.
  induction s as [|c r IH]; intros [|k]; cbn; try reflexivity.
  - now rewrite IH.
  - apply IH.
Qed.

Lemma leading_ws_prefix (s : string) :
  exists a, s = a +:+ drop_chars (leading_ws s) s
            /\ forall_chars isspace a = true
            /\ leading_ws (drop_chars (leading_ws s) s) = O.
Proof.
  induction s as [|c r (a & Ha & Hws & Hrest)].
  - now exists EmptyString.
  - cbn [leading_ws]. destruct (isspace c) eqn:Hc.
    + exists (String c a). cbn. rewrite Hc, <- Ha. now repeat split.
    + exists EmptyString. cbn. now rewrite Hc.
Qed.

Lemma match_colon_spec (s : string) (n : nat) :
  match_colon s = Some n ->
  exists a b, s = a +:+ ":" +:+ b +:+ drop_chars n s
              /\ forall_chars isspace a = true
              /\ forall_chars isspace b = true
              /\ leading_ws (drop_chars n s) = O
              /\ (0 < n)%nat.
Proof.
  unfold match_colon. intros H.
  destruct (leading_ws_prefix s) as (a & Ha & Hwa & _).
  destruct (drop_chars (leading_ws s) s) as [|c r] eqn:E; [discriminate |].
  destruct (Ascii.eqb_spec c ":"%char) as [-> | _]; [| discriminate].
  injection H as <-.
  destruct (leading_ws_prefix r) as (b & Hb & Hwb & Hrest).
  assert (Hdrop : forall (x y : string) (i j : nat),
            drop_chars i x = String ":" y ->
            drop_chars (i + 1 + j) x = drop_chars j y).
  { induction x as [|d x IHx]; intros y [|i] j Hx; cbn in *;
      try discriminate.
    - now injection Hx as _ ->.
    - now apply IHx. }
  rewrite (Hdrop s r _ (leading_ws r) E).
  exists a, b. repeat split; try assumption; try lia.
  rewrite Ha at 1. now rewrite Hb at 1.
Qed.

Lemma split_at_colon (s k v : string) :
  re_split match_colon s 1 = [k; v] ->
  exists a b, s = k +:+ a +:+ ":" +:+ b +:+ v
              /\ forall_chars isspace a = true
              /\ forall_chars isspace b = true
              /\ has_char ":" k = false
              /\ leading_ws v = O.
Proof.
  unfold re_split. revert k v.
  induction s as [|c r IH]; intros k v H; [discriminate |].
  cbn [re_split_go Nat.eqb Nat.ltb Nat.leb orb] in H.
  destruct (match_colon (String c r)) as [[|n]|] eqn:E.
  - apply match_colon_spec in E. destruct E as (_ & _ & _ & _ & _ & _ & E). lia.
  - rewrite split_no_more in H. injection H as <- <-.
    destruct (match_colon_spec _ _ E) as (a & b & Hs & Ha & Hb & Hv & _).
    exists a, b. cbn [drop_chars] in Hs, Hv. now repeat split.
  - destruct (re_split_go match_colon 1 0 0 r) as [|k' [|v' [|x l]]] eqn:Er;
      try discriminate.
    cbn [cons_head] in H. injection H as <- <-.
    destruct (IH k' v' eq_refl) as (a & b & Hr & Ha & Hb & Hk & Hv).
    exists a, b. split; [simpl; f_equal; exact Hr |].
    repeat split; try assumption.
    cbn [has_char]. rewrite Hk, orb_false_r.
    destruct (Ascii.eqb_spec c ":"%char) as [-> | _]; [| reflexivity].
    discriminate.
Qed.

(** C8.  [info] runs the one transaction of the request [set]; when every
    line of the trimmed body, cut at CR LF, splits at its first colon into a
    key and a value, it returns the mapping in which each key has the value
    of its last line.  A line is cut once, at its first colon with the
    whitespace around it.  The response of scenario B gives Unit: X and
    Version: 1.0. *)
Theorem info_mapping :
  (forall (self : CoolMasterNet) (w w' : world) (raw : string)
          (kvs : list (string * string)),
     run (_make_request self "set") w = (Returned raw, w') ->
     map (fun line => pair_of (re_split match_colon line 1))
         (split crlf (strip raw))
     = map Some kvs ->
     exists m,
       run (info self) w = (Returned m, w')
       /\ writes (log w') = writes (log w) ++ [bytes ("set" +:+ nl)]
       /\ forall k, m !! k = last_value k kvs)
  /\ (forall line k v,
        pair_of (re_split match_colon line 1) = Some (k, v) ->
        exists a b, line = k +:+ a +:+ ":" +:+ b +:+ v
                    /\ forall_chars isspace a = true
                    /\ forall_chars isspace b = true
                    /\ has_char ":" k = false
                    /\ leading_ws v = O)
  /\ (forall host, exists m w',
        run (info (new host))
            (fresh_world [Some (answering scenario_B_response)])
        = (Returned m, w')
        /\ writes (log w') = [bytes ("set" +:+ nl)]
        /\ m = <["Version" := "1.0"]> (<["Unit" := "X"]> ∅)).
Proof.
  split; [| split].
  - intros self w w' raw kvs Hrun Hmap.
    destruct (dict_go_spec
                (map (fun line => re_split match_colon line 1)
                     (split crlf (strip raw))) kvs 0 ∅) as (m & Hm & Hlook).
    { now rewrite map_map. }
    exists m. split; [| split].
    + unfold info. rewrite run_bind, Hrun. unfold dict. now rewrite Hm.
    + now destruct (make_request_returned _ _ _ _ _ Hrun).
    + intros k. rewrite Hlook. now destruct (last_value k kvs).
  - intros line k v H. apply split_at_colon.
    destruct (re_split match_colon line 1) as [|x [|y [|z l]]];
      try discriminate.
    cbn in H. now injection H as -> ->.
  - intros host. eexists. eexists.
    split; [vm_compute; reflexivity |]. split; vm_compute; reflexivity.
Qed.

Lemma scenario_A_unit_parsed :
  _parse (new "bridge") "IEF001" scenario_A_line EmptyString
  = inr scenario_A_unit.
Proof. vm_compute. reflexivity. Qed.

Lemma set_mode_rejects_unknown_witness :
  run (set_mode scenario_A_unit "turbo") (fresh_world [])
  = (Raised (ValueError
               "Unrecognized mode turbo. Valid values: auto cool dry fan heat"),
     fresh_world [])
  /\ step (set_mode scenario_A_unit "turbo") (fresh_world []) = None.
Proof.
  apply (set_mode_rejects_unknown scenario_A_unit "turbo" (fresh_world [])).
  rewrite <- str_in_spec. vm_compute. discriminate.
Defined.

Lemma set_swing_unsupported_or_unknown_witness :
  (exists w',
     run (set_swing scenario_A_unit "30")
         (fresh_world [Some (answering ("Unsupported Feature" +:+ crlf +:+ ">"))])
     = (Raised (ValueError "Unit IEF001 doesn't support swing mode 30."), w')
     /\ writes (log w') = [bytes ("swing IEF001 3" +:+ nl)])
  /\ run (set_swing scenario_A_unit "up") (fresh_world [])
     = (Raised (unrecognized_swing "up"), fresh_world []).
Proof.
  split.
  - destruct (proj1 (set_swing_unsupported_or_unknown scenario_A_unit "30"
                       (fresh_world [Some (answering ("Unsupported Feature"
                                                      +:+ crlf +:+ ">"))])))
      as (code & Hcode & H).
    { vm_compute. tauto. }
    vm_compute in Hcode. injection Hcode as <-.
    eexists. apply (H ("Unsupported Feature" +:+ crlf));
      vm_compute; reflexivity.
  - apply (proj2 (set_swing_unsupported_or_unknown scenario_A_unit "up"
                    (fresh_world []))).
    rewrite <- str_in_spec. vm_compute. discriminate.
Defined.

Lemma info_mapping_witness :
  exists m,
    fst (run (info (new "bridge"))
             (fresh_world [Some (answering scenario_B_response)]))
    = Returned m
    /\ m !! "Unit" = Some "X" /\ m !! "Version" = Some "1.0"
    /\ m !! "Other" = None.
Proof.
  destruct (proj1 info_mapping (new "bridge")
              (fresh_world [Some (answering scenario_B_response)])
              (snd (run (_make_request (new "bridge") "set")
                        (fresh_world [Some (answering scenario_B_response)])))
              ("Unit: X" +:+ crlf +:+ "Version: 1.0" +:+ crlf)
              [("Unit", "X"); ("Version", "1.0")])
    as (m & Hrun & _ & Hlook).
  - vm_compute. reflexivity.
  - vm_compute. reflexivity.
  - exists m. rewrite Hrun. rewrite !Hlook. repeat split.
Defined.

(* ===================================================================== *)
(** * The pool of three                                                    *)
(* ===================================================================== *)

#[local] Set Warnings "-clear-no-such-hyp".

Section Pool.

Context {A : Type}.

Lemma count_if_app {X : Type} (f : X -> bool) (l1 l2 : list X) :
  count_if f (l1 ++ l2) = (count_if f l1 + count_if f l2)%nat.
Proof. induction l1 as [|x l1 IH]; cbn; [reflexivity | rewrite IH; lia]. Qed.

Lemma count_if_insert {X : Type} (f : X -> bool) (l : list X) (i : nat)
    (x y : X) :
  l !! i = Some x ->
  (count_if f (<[i := y]> l) + Nat.b2n (f x)
   = count_if f l + Nat.b2n (f y))%nat.
Proof.
  revert i. induction l as [|z l IH]; intros [|i] H; try discriminate.
  - injection H as ->. simpl. destruct (f x), (f y); simpl; lia.
  - simpl in H. simpl. specialize (IH i H). lia.
Qed.

Lemma closed_readuntil (sep : list byte) (cs : conn_state) :
  closed (snd (readuntil sep cs)) = closed cs.
Proof.
  unfold readuntil. destruct (find_sep sep (inbuf cs)).
  - now destruct (limit <? Z.of_nat n).
  - destruct (_ && _); [reflexivity | now destruct (inend cs)].
Qed.

Lemma closed_send (data : list byte) (cs : conn_state) :
  closed (send data cs) = closed cs.
Proof. unfold send. now destruct (inend cs). Qed.

(** Replacing a connection by one that is as open as it was. *)
Lemma open_count_set_conn (w : world) (c : nat) (cs cs' : conn_state) :
  conns w !! c = Some cs -> closed cs' = closed cs ->
  open_count (set_conn c cs' w) = open_count w.
Proof.
  intros Hc Hcl. unfold open_count, set_conn. cbn [conns].
  pose proof (count_if_insert is_open (conns w) c cs cs' Hc) as H.
  assert (E : is_open cs' = is_open cs) by (unfold is_open; now rewrite Hcl).
  rewrite E in H. lia.
Qed.

(** One step of a task that follows [tx]. *)
Lemma step_tx (n : nat) (h : bool) (c : option nat) (p p' : prog A)
    (w w' : world) :
  tx n h c p -> step p w = Some (p', w') ->
  0 <= sem w ->
  (forall x, c = Some x ->
             exists cs, conns w !! x = Some cs /\ closed cs = false) ->
  exists n' h' c',
    tx n' h' c' p' /\ (n' < n)%nat
    /\ 0 <= sem w'
    /\ sem w' + Z.b2z h' = sem w + Z.b2z h
    /\ Z.of_nat (open_count w') + has_conn c
       = Z.of_nat (open_count w) + has_conn c'
    /\ (forall y cs, conns w !! y = Some cs -> c <> Some y ->
                     conns w' !! y = Some cs)
    /\ (forall y, c' = Some y ->
          (exists cs, conns w' !! y = Some cs /\ closed cs = false)
          /\ (c = Some y \/ (c = None /\ conns w !! y = None))).
Proof.
  intros Htx Hstep Hsem Hopen.
  destruct Htx as [n a|n e|n k Hk|n k Hk|n hs pt k Hl Hr|n c sep t k Hk
                   |n c d k Hk|n c k Hk|n c k Hk]; cbn [step] in Hstep.
  - discriminate.
  - discriminate.
  - destruct (0 <? sem w) eqn:E; [| discriminate].
    apply Z.ltb_lt in E. injection Hstep as <- <-.
    exists n, true, None. cbn. repeat split; auto; try lia; discriminate.
  - injection Hstep as <- <-.
    exists n, false, None. cbn. repeat split; auto; try lia; discriminate.
  - destruct (peers w) as [|[q|] rest]; injection Hstep as <- <-.
    + exists n, true, None. cbn. repeat split; auto; try lia; discriminate.
    + exists n, true, (Some (length (conns w))).
      split; [apply Hr |]. split; [lia |]. cbn [sem add_log].
      split; [exact Hsem |]. split; [reflexivity |]. split; [| split].
      * unfold open_count. cbn [conns add_log]. rewrite count_if_app.
        cbn. lia.
      * intros y cs Hy _. cbn [conns add_log].
        now apply lookup_app_l_Some.
      * intros y [= <-]. cbn [conns add_log]. split.
        -- exists (connect q). split; [apply lookup_last | reflexivity].
        -- right. split; [reflexivity |]. now apply lookup_ge_None_2.
    + exists n, true, None. cbn. repeat split; auto; try lia; discriminate.
  - destruct (Hopen c eq_refl) as (cs & Hc & Hcl). rewrite Hc in Hstep.
    pose proof (closed_readuntil sep cs) as Hcl'.
    destruct (readuntil sep cs) as [r cs'] eqn:E. cbn [snd] in Hcl'.
    injection Hstep as <- <-.
    exists n, true, (Some c). split; [apply Hk |]. split; [lia |].
    cbn [sem add_log set_conn]. split; [exact Hsem |].
    split; [reflexivity |]. split; [| split].
    + change (open_count (add_log _ ?x)) with (open_count x).
      now rewrite (open_count_set_conn w c cs cs' Hc Hcl').
    + intros y cs0 Hy Hne. cbn [conns add_log set_conn].
      rewrite list_lookup_insert_ne; [exact Hy | congruence].
    + intros y [= <-]. cbn [conns add_log set_conn]. split; [| now left].
      exists cs'. split; [| congruence].
      apply list_lookup_insert_eq. eapply lookup_lt_Some. exact Hc.
  - destruct (Hopen c eq_refl) as (cs & Hc & Hcl). rewrite Hc in Hstep.
    injection Hstep as <- <-.
    exists n, true, (Some c). split; [exact Hk |]. split; [lia |].
    cbn [sem add_log set_conn]. split; [exact Hsem |].
    split; [reflexivity |]. split; [| split].
    + change (open_count (add_log _ ?x)) with (open_count x).
      now rewrite (open_count_set_conn w c cs (send d cs) Hc (closed_send d cs)).
    + intros y cs0 Hy Hne. cbn [conns add_log set_conn].
      rewrite list_lookup_insert_ne; [exact Hy | congruence].
    + intros y [= <-]. cbn [conns add_log set_conn]. split; [| now left].
      exists (send d cs). split; [| now rewrite closed_send].
      apply list_lookup_insert_eq. eapply lookup_lt_Some. exact Hc.
  - destruct (Hopen c eq_refl) as (cs & Hc & Hcl). rewrite Hc in Hstep.
    injection Hstep as <- <-.
    exists n, true, None. split; [exact Hk |]. split; [lia |].
    cbn [sem add_log set_conn]. split; [exact Hsem |].
    split; [reflexivity |]. split; [| split].
    + change (open_count (add_log _ ?x)) with (open_count x).
      unfold open_count, set_conn. cbn [conns has_conn].
      pose proof (count_if_insert is_open (conns w) c cs (shut cs) Hc) as H.
      assert (E1 : is_open cs = true) by (unfold is_open; now rewrite Hcl).
      assert (E2 : is_open (shut cs) = false) by reflexivity.
      rewrite E1, E2 in H. cbn [Nat.b2n] in H. lia.
    + intros y cs0 Hy Hne. cbn [conns add_log set_conn].
      rewrite list_lookup_insert_ne; [exact Hy | congruence].
    + discriminate.
  - destruct (conns w !! c) as [cs|]; injection Hstep as <- <-;
      exists n, true, None; cbn; repeat split; auto; try lia; discriminate.
Qed.

Lemma insert_middle {X : Type} (l1 l2 : list X) (x y : X) :
  <[length l1 := y]> (l1 ++ x :: l2) = l1 ++ y :: l2.
Proof. rewrite insert_app_r_alt by lia. now rewrite Nat.sub_diag. Qed.

Lemma conns_of_middle (l1 l2 : list ann) (a : ann) :
  conns_of (l1 ++ a :: l2)
  = conns_of l1 ++ option_list (a_conn a) ++ conns_of l2.
Proof.
  unfold conns_of. rewrite omap_app. cbn [omap list_omap].
  now destruct (a_conn a).
Qed.

Lemma count_slot_middle (l1 l2 : list ann) (a : ann) :
  Z.of_nat (count_if a_slot (l1 ++ a :: l2))
  = Z.of_nat (count_if a_slot l1) + Z.b2z (a_slot a)
    + Z.of_nat (count_if a_slot l2).
Proof. rewrite count_if_app. cbn. destruct (a_slot a); cbn; lia. Qed.

Lemma total_bound_middle (l1 l2 : list ann) (a : ann) :
  total_bound (l1 ++ a :: l2)
  = (total_bound l1 + a_bound a + total_bound l2)%nat.
Proof. induction l1 as [|x l1 IH]; cbn; [lia | rewrite IH; lia]. Qed.

(** A step of any task keeps the invariant and uses up some of the
    bound. *)
Lemma pool_inv_step (cfg cfg' : config A) (anns : list ann) (i : nat) :
  pool_inv cfg anns -> step_task i cfg = Some cfg' ->
  exists anns', pool_inv cfg' anns'
                /\ (total_bound anns' < total_bound anns)%nat.
Proof.
  destruct cfg as [w ts]. unfold pool_inv, step_task. cbn [fst snd].
  intros (Htx & Hsem & Hslots & Hnd & Hvalid & Hcount) Hstep.
  destruct (ts !! i) as [p|] eqn:Hp; [| discriminate].
  destruct (step p w) as [[p' w']|] eqn:Hs; [| discriminate].
  injection Hstep as <-. cbn [fst snd].
  destruct (Forall2_lookup_l _ _ _ _ _ Htx Hp) as (a & Ha & Hta).
  destruct (list_elem_of_split_length _ _ _ Ha) as (l1 & l2 & -> & ->).
  rewrite conns_of_middle in Hnd, Hvalid, Hcount.
  rewrite count_slot_middle in Hslots.
  assert (Hopen : forall x, a_conn a = Some x ->
            exists cs, conns w !! x = Some cs /\ closed cs = false).
  { intros x Hx. rewrite Forall_forall in Hvalid. apply Hvalid.
    rewrite Hx. set_solver. }
  destruct (step_tx _ _ _ _ _ _ _ Hta Hs Hsem Hopen)
    as (n' & h' & c' & Htx' & Hlt & Hsem' & Hacc & Hoc & Hkeep & Hnew).
  exists (l1 ++ {| a_bound := n'; a_slot := h'; a_conn := c' |} :: l2).
  split; [| rewrite !total_bound_middle; cbn; lia].
  rewrite conns_of_middle, count_slot_middle. cbn [a_slot a_conn].
  assert (Hothers : forall z, z ∈ conns_of l1 ++ conns_of l2 ->
            a_conn a <> Some z
            /\ exists cs, conns w !! z = Some cs /\ closed cs = false).
  { intros z Hz. split.
    - intros Hc. rewrite Hc in Hnd. cbn in Hnd.
      apply NoDup_app in Hnd. destruct Hnd as (_ & Hdis & Hnd).
      apply NoDup_cons in Hnd. destruct Hnd as [Hnot _].
      apply elem_of_app in Hz. destruct Hz as [Hz | Hz].
      + apply (Hdis z Hz). set_solver.
      + contradiction.
    - rewrite Forall_forall in Hvalid. apply Hvalid. set_solver. }
  split; [| split; [exact Hsem' | split; [lia | split; [| split]]]].
  - rewrite <- (insert_middle l1 l2 a). apply Forall2_insert; assumption.
  - destruct c' as [y|]; cbn [option_list app].
    + destruct (Hnew y eq_refl) as [_ [Hsame | [_ Hfresh]]].
      * now rewrite Hsame in Hnd.
      * assert (Hy : y ∉ conns_of l1 ++ conns_of l2).
        { intros Hy. destruct (Hothers y Hy) as [_ (cs & Hcs & _)].
          congruence. }
        destruct (a_conn a); cbn in Hnd.
        -- apply NoDup_app in Hnd. destruct Hnd as (H1 & Hdis & Hnd).
           apply NoDup_cons in Hnd. destruct Hnd as [_ H2].
           apply NoDup_app. repeat split; [exact H1 | | ].
           ++ intros z Hz1 Hz2. apply elem_of_cons in Hz2.
              destruct Hz2 as [-> | Hz2]; [apply Hy; set_solver |].
              apply (Hdis z Hz1). set_solver.
           ++ apply NoDup_cons. split; [set_solver | exact H2].
        -- apply NoDup_app in Hnd. destruct Hnd as (H1 & Hdis & H2).
           apply NoDup_app. repeat split; [exact H1 | | ].
           ++ intros z Hz1 Hz2. apply elem_of_cons in Hz2.
              destruct Hz2 as [-> | Hz2]; [apply Hy; set_solver |].
              now apply (Hdis z Hz1).
           ++ apply NoDup_cons. split; [set_solver | exact H2].
    + destruct (a_conn a); cbn in Hnd; [| exact Hnd].
      apply NoDup_app in Hnd. destruct Hnd as (H1 & Hdis & Hnd).
      apply NoDup_cons in Hnd. destruct Hnd as [_ H2].
      apply NoDup_app. repeat split; [exact H1 | | exact H2].
      intros z Hz1 Hz2. apply (Hdis z Hz1). set_solver.
  - rewrite Forall_forall. intros z Hz.
    rewrite !elem_of_app in Hz.
    assert (Hcase : z ∈ option_list c' \/ z ∈ conns_of l1 ++ conns_of l2)
      by (rewrite elem_of_app; tauto).
    destruct Hcase as [Hz' | Hz'].
    + destruct c' as [y|]; cbn in Hz'; [| set_solver].
      assert (z = y) as -> by set_solver. apply (Hnew y eq_refl).
    + destruct (Hothers z Hz') as [Hne (cs & Hcs & Hcl)].
      exists cs. split; [| exact Hcl]. apply Hkeep; [exact Hcs |].
      congruence.
  - rewrite !length_app in Hcount |- *.
    assert (Hl : forall o : option nat,
              Z.of_nat (length (option_list o)) = has_conn o)
      by (intros [?|]; reflexivity).
    pose proof (Hl (a_conn a)). pose proof (Hl c'). lia.
Qed.

Lemma tx_in_transaction (n : nat) (h : bool) (c : option nat) (p : prog A) :
  tx n h c p -> in_transaction p = h.
Proof. intros H. destruct H; reflexivity. Qed.

Lemma tx_conn_slot (n : nat) (h : bool) (c : option nat) (p : prog A) :
  tx n h c p -> h = false -> c = None.
Proof. intros H. destruct H; intros; reflexivity || discriminate. Qed.

(** A task in its transaction can always move. *)
Lemma tx_moves (n : nat) (c : option nat) (p : prog A) (w : world) :
  tx n true c p -> step p w <> None.
Proof.
  intros H. inversion H; subst; cbn [step];
    repeat match goal with
           | |- context [match ?x with _ => _ end] => destruct x
           end;
    discriminate.
Qed.

Lemma pool_inv_run (sched : list nat) :
  forall (cfg : config A) (anns : list ann),
    pool_inv cfg anns -> exists anns', pool_inv (run_schedule sched cfg) anns'.
Proof.
  induction sched as [|i rest IH]; intros cfg anns Hinv; cbn [run_schedule].
  - now exists anns.
  - destruct (step_task i cfg) as [cfg'|] eqn:E; [| now apply (IH cfg anns)].
    destruct (pool_inv_step cfg cfg' anns i Hinv E) as (anns' & Hinv' & _).
    now apply (IH cfg' anns').
Qed.

Section Consequences.

Variables (cfg : config A) (anns : list ann).
Hypothesis Hinv : pool_inv cfg anns.

Lemma pool_slots_held :
  count_if in_transaction (snd cfg) = count_if a_slot anns.
Proof.
  destruct Hinv as (Htx & _). clear Hinv.
  induction Htx as [|p a ts l Hp _ IH]; [reflexivity |].
  cbn [count_if]. now rewrite IH, (tx_in_transaction _ _ _ _ Hp).
Qed.

Lemma pool_conns_held :
  (length (conns_of anns) <= count_if a_slot anns)%nat.
Proof.
  destruct Hinv as (Htx & _). clear Hinv.
  induction Htx as [|p a ts l Hp _ IH]; [cbn; lia |].
  unfold conns_of in *. cbn [omap list_omap count_if].
  pose proof (tx_conn_slot _ _ _ _ Hp) as Hc.
  destruct (a_slot a); [destruct (a_conn a); cbn; lia |].
  rewrite Hc by reflexivity. cbn. lia.
Qed.

Lemma pool_bounds :
  0 <= sem (fst cfg) <= 3
  /\ Z.of_nat (count_if in_transaction (snd cfg)) = 3 - sem (fst cfg)
  /\ (open_count (fst cfg) <= count_if in_transaction (snd cfg))%nat.
Proof.
  pose proof pool_slots_held as H1. pose proof pool_conns_held as H2.
  destruct Hinv as (_ & Hsem & Hslots & _ & _ & Hcount).
  rewrite H1, Hcount. lia.
Qed.

Lemma pool_all_finished :
  forallb finished (snd cfg) = true ->
  sem (fst cfg) = 3 /\ open_count (fst cfg) = O.
Proof.
  intros Hfin.
  assert (E : count_if in_transaction (snd cfg) = O).
  { clear Hinv. induction (snd cfg) as [|p ts IH]; [reflexivity |].
    cbn in Hfin. apply andb_true_iff in Hfin. destruct Hfin as [Hp Hts].
    cbn [count_if]. rewrite (IH Hts). unfold in_transaction. now rewrite Hp. }
  pose proof pool_bounds as (H1 & H2 & H3). lia.
Qed.

Lemma pool_progress :
  forallb finished (snd cfg) = false ->
  exists i, step_task i cfg <> None.
Proof.
  intros Hfin.
  assert (Hex : exists i p, snd cfg !! i = Some p /\ finished p = false).
  { clear Hinv. induction (snd cfg) as [|p ts IH]; [discriminate |].
    cbn in Hfin. destruct (finished p) eqn:Ep.
    - destruct (IH Hfin) as (i & q & Hq & Hf). now exists (S i), q.
    - now exists O, p. }
  destruct (Nat.eq_dec (count_if a_slot anns) O) as [Hzero | Hpos].
  - (* nobody holds a slot: the three are free, a waiting task gets one *)
    destruct Hex as (i & p & Hp & Hf). exists i.
    destruct Hinv as (Htx & _ & Hslots & _).
    destruct (Forall2_lookup_l _ _ _ _ _ Htx Hp) as (a & Ha & Hta).
    unfold step_task. rewrite Hp.
    assert (Hs : a_slot a = false).
    { clear - Ha Hzero. revert i Ha.
      induction anns as [|b l IH]; intros [|i] Ha; try discriminate.
      - injection Ha as ->. cbn in Hzero. destruct (a_slot a); [lia | easy].
      - cbn in Hzero. apply (IH ltac:(lia) i Ha). }
    rewrite Hs in Hta. inversion Hta; subst; try discriminate.
    cbn [step]. replace (0 <? sem (fst cfg)) with true; [discriminate |].
    symmetry. apply Z.ltb_lt. lia.
  - (* somebody holds a slot and can move *)
    destruct Hinv as (Htx & _).
    assert (Hh : exists i p a, snd cfg !! i = Some p /\ a_slot a = true
                               /\ tx (a_bound a) (a_slot a) (a_conn a) p).
    { clear - Htx Hpos. induction Htx as [|p a ts l Hp _ IH]; [easy |].
      cbn in Hpos. destruct (a_slot a) eqn:Ea.
      - exists O, p, a. now rewrite Ea.
      - destruct (IH Hpos) as (i & q & b & H1 & H2 & H3).
        now exists (S i), q, b. }
    destruct Hh as (i & p & a & Hp & Hs & Hta). exists i.
    unfold step_task. rewrite Hp. rewrite Hs in Hta.
    pose proof (tx_moves _ _ _ (fst cfg) Hta) as Hm.
    destruct (step p (fst cfg)) as [[p' w']|]; [discriminate | contradiction].
Qed.

End Consequences.

(** From any state of the pool some schedule brings every task to its
    end. *)
Lemma pool_terminates (n : nat) :
  forall (cfg : config A) (anns : list ann),
    pool_inv cfg anns -> (total_bound anns <= n)%nat ->
    exists more, forallb finished (snd (run_schedule more cfg)) = true.
Proof.
  induction n as [|n IH]; intros cfg anns Hinv Hn;
    destruct (forallb finished (snd cfg)) eqn:Hfin;
    try (now exists []).
  - destruct (pool_progress cfg anns Hinv Hfin) as [i Hi].
    destruct (step_task i cfg) as [cfg'|] eqn:E; [| contradiction].
    destruct (pool_inv_step cfg cfg' anns i Hinv E) as (anns' & _ & Hlt). lia.
  - destruct (pool_progress cfg anns Hinv Hfin) as [i Hi].
    destruct (step_task i cfg) as [cfg'|] eqn:E; [| contradiction].
    destruct (pool_inv_step cfg cfg' anns i Hinv E) as (anns' & Hinv' & Hlt).
    destruct (IH cfg' anns' Hinv' ltac:(lia)) as [more Hmore].
    exists (i :: more). cbn [run_schedule]. now rewrite E.
Qed.

End Pool.

(** The transaction follows [tx]: at most eight steps, the connection
    opened under the slot, closed and the slot released on every path. *)
Lemma make_request_tx (self : CoolMasterNet) (request : string) :
  tx 8 false None (_make_request self request).
Proof.
  unfold _make_request, async_with_semaphore, open_connection,
    wait_for_readuntil, write, close, wait_closed.
  cbn [bind try_finally].
  apply tx_acquire, tx_open; intros r; cbn [lift bind try_finally].
  { apply tx_release, tx_raise. }
  pose (cleanup := fun (o : prog string) =>
          try_finally
            (try_finally o (Close r (WaitClosed r lift)))
            (Release (Ret tt))).
  assert (Hfin : forall (m : nat) (o : exn + string),
            tx (3 + m) true (Some r) (cleanup (lift o))).
  { intros m [e|a]; unfold cleanup; cbn [lift bind try_finally];
      apply tx_close, tx_wait_closed; intros [e'|[]];
      cbn [lift bind try_finally]; apply tx_release; constructor. }
  apply tx_read. intros [e|prompt]; cbn [lift bind try_finally].
  { apply (Hfin 2%nat (inl e)). }
  destruct (negb (bytes_eqb prompt (bytes ">"))); cbn [bind try_finally].
  { apply (Hfin 2%nat (inl prompt_not_found)). }
  destruct (encode_ascii (request +:+ nl)) as [e|data];
    cbn [lift bind try_finally].
  { apply (Hfin 2%nat (inl e)). }
  apply tx_write, tx_read. intros [e|response]; cbn [lift bind try_finally].
  { apply (Hfin 0%nat (inl e)). }
  apply (Hfin 0%nat (response_body response)).
Qed.

Lemma pool_inv_init (self : CoolMasterNet) (requests : list string)
    (ps : list (option peer)) :
  pool_inv (fresh_world ps, map (_make_request self) requests)
           (map (fun _ => {| a_bound := 8; a_slot := false; a_conn := None |})
                requests).
Proof.
  unfold pool_inv. cbn [fst snd fresh_world sem conns].
  assert (H : forall l : list string,
            count_if a_slot
              (map (fun _ => {| a_bound := 8; a_slot := false;
                                a_conn := None |}) l) = O
            /\ conns_of
                 (map (fun _ => {| a_bound := 8; a_slot := false;
                                   a_conn := None |}) l) = []).
  { induction l as [|x l [IH1 IH2]]; [now split |]. split; assumption. }
  destruct (H requests) as [-> ->].
  repeat split; try constructor; try (unfold semaphore_initial; lia).
  induction requests as [|r l IH]; constructor; [| exact IH].
  apply make_request_tx.
Qed.

(** C9.  Any number of transactions started together on a new bridge
    object, interleaved in any way: the semaphore stays between 0 and 3 and
    counts the free slots, so at most three tasks are in their transaction
    and at most that many connections are open; a task waiting for its slot
    cannot move exactly when three are taken; when all tasks have ended,
    whatever their outcomes, the three slots are free and no connection is
    open; and the tasks never get stuck, some schedule ends them all. *)
Theorem pool_of_three (self : CoolMasterNet) (requests : list string)
    (ps : list (option peer)) (sched : list nat) :
  let cfg :=
    run_schedule sched (fresh_world ps, map (_make_request self) requests) in
  0 <= sem (fst cfg) <= 3
  /\ Z.of_nat (count_if in_transaction (snd cfg)) = 3 - sem (fst cfg)
  /\ (open_count (fst cfg) <= count_if in_transaction (snd cfg) <= 3)%nat
  /\ (forall i p, snd cfg !! i = Some p -> waits_for_slot p = true ->
        (step_task i cfg = None
         <-> count_if in_transaction (snd cfg) = 3%nat))
  /\ (forallb finished (snd cfg) = true ->
        sem (fst cfg) = 3 /\ open_count (fst cfg) = O)
  /\ (forallb finished (snd cfg) = false ->
        exists i, step_task i cfg <> None)
  /\ exists more, forallb finished (snd (run_schedule more cfg)) = true.
Proof.
  intros cfg.
  destruct (pool_inv_run sched _ _ (pool_inv_init self requests ps))
    as [anns Hinv].
  fold cfg in Hinv.
  pose proof (pool_bounds cfg anns Hinv) as (Hb1 & Hb2 & Hb3).
  split; [exact Hb1 |]. split; [exact Hb2 |]. split; [lia |].
  split; [| split; [| split]].
  - intros i p Hp Hw. unfold step_task. rewrite Hp.
    destruct p; try discriminate. cbn [step].
    destruct (0 <? sem (fst cfg)) eqn:E.
    + apply Z.ltb_lt in E. split; [discriminate | lia].
    + apply Z.ltb_ge in E. split; [lia | reflexivity].
  - apply (pool_all_finished cfg anns Hinv).
  - apply (pool_progress cfg anns Hinv).
  - apply (pool_terminates (total_bound anns) cfg anns Hinv). lia.
Qed.

(** Four requests at once: the first three tasks take the slots and open
    their connections, the fourth stays where it is. *)
Example four_requests_three_slots :
  let cfg :=
    run_schedule [0; 1; 2; 3; 0; 1; 2; 3]%nat
      (fresh_world [Some silent; Some silent; Some silent; Some silent],
       map (_make_request (new "bridge")) ["a"; "b"; "c"; "d"]) in
  sem (fst cfg) = 0 /\ open_count (fst cfg) = 3%nat
  /\ option_map waits_for_slot (snd cfg !! 3%nat) = Some true
  /\ step_task 3 cfg = None.
Proof. vm_compute. repeat split. Qed.

(* ===================================================================== *)
(** * Further properties: what a program gives back                        *)
(* ===================================================================== *)

Section Balance.

Context {A : Type}.

Lemma tx_weaken (n : nat) (h : bool) (c : option nat) (p : prog A) :
  tx n h c p -> forall m, (n <= m)%nat -> tx m h c p.
Proof.
  induction 1 as [n a|n e|n k _ IH|n k _ IH|n hs pt k _ IHl _ IHr
                  |n c sep t k _ IH|n c d k _ IH|n c k _ IH|n c k _ IH];
    intros m Hm; try constructor;
    (destruct m as [|m]; [lia |]); constructor; intros;
    match goal with H : _ |- _ => apply H; lia end.
Qed.

Lemma tx_lift (r : exn + A) : tx 0 false None (lift r).
Proof. destruct r; constructor. Qed.

(** Run alone on a store that has a slot for it, a program that follows
    [tx] never waits, gives its slot back and closes its connection. *)
Lemma tx_run (n : nat) :
  forall (h : bool) (c : option nat) (p : prog A) (w w' : world)
         (o : outcome A),
    tx n h c p -> 0 <= sem w -> 0 < sem w + Z.b2z h ->
    (forall x, c = Some x ->
               exists cs, conns w !! x = Some cs /\ closed cs = false) ->
    run p w = (o, w') ->
    o <> Blocked
    /\ sem w' = sem w + Z.b2z h
    /\ Z.of_nat (open_count w') + has_conn c = Z.of_nat (open_count w).
Proof.
  induction n as [n IH] using lt_wf_ind.
  intros h c p w w' o Htx Hsem Hfree Hopen Hrun.
  destruct (step p w) as [[p1 w1]|] eqn:Hs.
  - destruct (step_tx _ _ _ _ _ _ _ Htx Hs Hsem Hopen)
      as (n1 & h1 & c1 & Htx1 & Hlt & Hsem1 & Hacc & Hoc & _ & Hnew).
    rewrite (run_step _ _ _ _ Hs) in Hrun.
    destruct (IH n1 Hlt h1 c1 p1 w1 w' o Htx1 Hsem1 ltac:(lia)
                 (fun x Hx => proj1 (Hnew x Hx)) Hrun) as (Ho & Hs' & Hc').
    split; [exact Ho |]. lia.
  - destruct Htx; cbn [step] in Hs; cbn [run] in Hrun;
      try (injection Hrun as <- <-; cbn [Z.b2z has_conn];
           split; [discriminate | split; lia]).
    + destruct (0 <? sem w) eqn:E; [discriminate |].
      apply Z.ltb_ge in E. cbn in Hfree. lia.
    + discriminate.
    + destruct (peers w) as [|[q|] rest]; discriminate.
    + destruct (conns w !! c) as [cs|]; [| discriminate].
      destruct (readuntil sep cs). discriminate.
    + destruct (conns w !! c); discriminate.
    + destruct (conns w !! c); discriminate.
    + destruct (conns w !! c); discriminate.
Qed.

End Balance.

Lemma tx_bind {A B : Type} (n m : nat) (h : bool) (c : option nat)
    (p : prog A) (f : A -> prog B) :
  tx n h c p -> (forall a, tx m false None (f a)) ->
  tx (n + m) h c (bind p f).
Proof.
  intros Hp Hf.
  induction Hp; cbn [bind Nat.add]; try (constructor; auto; fail).
  apply (tx_weaken m); [apply Hf | lia].
Qed.

Section OperationsBalance.

Lemma create_tx (bridge : CoolMasterNet) (unit_id : string)
    (raw : option string) :
  tx 16 false None (create bridge unit_id raw).
Proof.
  unfold create.
  apply (tx_bind 8 8).
  - destruct raw as [r|]; [constructor |].
    apply (tx_bind 8 0); [apply make_request_tx | constructor].
  - intros r. apply (tx_bind 8 0).
    + destruct (_swing_support bridge); [| constructor].
      apply (tx_bind 8 0); [apply make_request_tx | constructor].
    + intros sw. apply (tx_bind 0 0); [apply tx_lift | constructor].
Qed.

Lemma refresh_tx (self : CoolMasterNetUnit) : tx 16 false None (refresh self).
Proof.
  unfold refresh. apply (tx_bind 16 0); [apply create_tx | constructor].
Qed.

Lemma command_tx (self : CoolMasterNetUnit) (request : string) :
  tx 24 false None
     (let* _ := _make_unit_request self request in refresh self).
Proof.
  apply (tx_bind 8 16); [apply make_request_tx | intros _; apply refresh_tx].
Qed.

Lemma unit_operations_tx (self : CoolMasterNetUnit) (value : string)
    (p : prog CoolMasterNetUnit) :
  In p (unit_operations self value) -> tx 24 false None p.
Proof.
  intros Hin. unfold unit_operations in Hin. cbn [In] in Hin.
  destruct Hin as [<- | [<- | [<- | Hin]]].
  - apply (tx_weaken 16); [apply refresh_tx | lia].
  - unfold set_mode. destruct (negb _); [constructor | apply command_tx].
  - unfold set_swing. destruct (negb _); [constructor |].
    apply (tx_bind 0 24); [apply tx_lift |]. intros code.
    apply (tx_bind 8 16); [apply make_request_tx |]. intros rv.
    destruct (startswith rv _); [constructor | apply refresh_tx].
  - repeat (destruct Hin as [<- | Hin]; [apply command_tx |]).
    contradiction.
Qed.

(** X1.  A transaction on a store without a free slot waits and changes
    nothing.  With a free slot it never waits and, whatever its outcome,
    leaves the semaphore and the number of open connections as they
    were. *)
Theorem transaction_gives_back (self : CoolMasterNet) (request : string)
    (w w' : world) (o : outcome string) :
  0 <= sem w -> run (_make_request self request) w = (o, w') ->
  (sem w = 0 -> o = Blocked /\ w' = w)
  /\ (0 < sem w ->
      o <> Blocked /\ sem w' = sem w /\ open_count w' = open_count w).
Proof.
  intros Hsem Hrun. split.
  - intros Hz. unfold _make_request, async_with_semaphore in Hrun.
    cbn [run] in Hrun. rewrite Hz in Hrun. cbn in Hrun.
    now injection Hrun as <- <-.
  - intros Hpos.
    destruct (tx_run 8 false None _ w w' o (make_request_tx self request)
                Hsem ltac:(cbn; lia) ltac:(discriminate) Hrun)
      as (Ho & Hs & Hc).
    cbn in Hs, Hc. split; [exact Ho |]. lia.
Qed.

(** X2.  Every operation of a snapshot that returns a snapshot, and
    [create] and [info] as well, run alone on a store with a free slot:
    it never waits, and whatever its outcome the semaphore and the number
    of open connections are as before. *)
Theorem operations_give_back (w w' : world) :
  0 < sem w ->
  (forall self value p o,
     In p (unit_operations self value) -> run p w = (o, w') ->
     o <> Blocked /\ sem w' = sem w /\ open_count w' = open_count w)
  /\ (forall bridge unit_id raw o,
        run (create bridge unit_id raw) w = (o, w') ->
        o <> Blocked /\ sem w' = sem w /\ open_count w' = open_count w)
  /\ (forall bridge o,
        run (info bridge) w = (o, w') ->
        o <> Blocked /\ sem w' = sem w /\ open_count w' = open_count w).
Proof.
  intros Hpos.
  assert (Hgen : forall (X : Type) (n : nat) (p : prog X) (o : outcome X),
            tx n false None p -> run p w = (o, w') ->
            o <> Blocked /\ sem w' = sem w /\ open_count w' = open_count w).
  { intros X n p o Htx Hrun.
    destruct (tx_run n false None p w w' o Htx ltac:(lia) ltac:(cbn; lia)
                ltac:(discriminate) Hrun) as (Ho & Hs & Hc).
    cbn in Hs, Hc. split; [exact Ho |]. lia. }
  split; [| split].
  - intros self value p o Hin. apply (Hgen _ 24%nat).
    now apply (unit_operations_tx self value).
  - intros bridge unit_id raw o. apply (Hgen _ 16%nat). apply create_tx.
  - intros bridge o. apply (Hgen _ 8%nat). unfold info.
    apply (tx_bind 8 0); [apply make_request_tx | intros; apply tx_lift].
Qed.

End OperationsBalance.

Lemma transaction_gives_back_witness :
  fst (run (_make_request (new "bridge") "ls2") (fresh_world [Some garbled]))
  <> Blocked
  /\ sem (snd (run (_make_request (new "bridge") "ls2")
                   (fresh_world [Some garbled]))) = 3
  /\ open_count (snd (run (_make_request (new "bridge") "ls2")
                          (fresh_world [Some garbled]))) = O.
Proof.
  apply (proj2 (transaction_gives_back (new "bridge") "ls2"
                  (fresh_world [Some garbled]) _ _ ltac:(vm_compute; discriminate)
                  (surjective_pairing _))).
  reflexivity.
Defined.

Lemma operations_give_back_witness :
  fst (run (turn_on scenario_A_unit) (fresh_world [Some silent])) <> Blocked
  /\ sem (snd (run (turn_on scenario_A_unit) (fresh_world [Some silent]))) = 3
  /\ open_count (snd (run (turn_on scenario_A_unit)
                          (fresh_world [Some silent]))) = O.
Proof.
  apply (proj1 (operations_give_back (fresh_world [Some silent]) _
                  ltac:(reflexivity))
           scenario_A_unit EmptyString (turn_on scenario_A_unit)).
  - cbn. tauto.
  - apply surjective_pairing.
Defined.

(* ===================================================================== *)
(** * Further properties: the paths of a transaction                       *)
(* ===================================================================== *)

Lemma written_send (data : list byte) (cs : conn_state) :
  written (send data cs) = written cs ++ [data].
Proof. unfold send. now destruct (inend cs). Qed.

Lemma forall_chars_append (f : ascii -> bool) (a b : string) :
  forall_chars f (a +:+ b) = forall_chars f a && forall_chars f b.
Proof.
  induction a as [|c a IH]; [reflexivity |].
  cbn [String.append forall_chars]. rewrite IH. apply andb_assoc.
Qed.

Lemma encode_ascii_spec (s : string) :
  encode_ascii s
  = if forall_chars is_ascii_char s then inr (bytes s)
    else inl UnicodeEncodeError.
Proof. reflexivity. Qed.

Lemma decode_bytes (s : string) :
  forall_chars is_ascii_char s = true -> decode_ascii (bytes s) = inr s.
Proof.
  intros H. unfold decode_ascii, bytes.
  rewrite string_of_list_byte_of_string. now rewrite H.
Qed.

Section TransactionPaths.

Variable self : CoolMasterNet.
Variable request : string.

(** X3.  A transaction never touches an earlier connection and writes
    nothing but its request, at most once: afterwards the table of
    connections is as it was or has one more connection, which is closed
    and has received either nothing or the request followed by a line
    feed. *)
Theorem transaction_touches_one_connection (w w' : world)
    (o : outcome string) :
  run (_make_request self request) w = (o, w') ->
  (writes (log w') = writes (log w)
   /\ (conns w' = conns w
       \/ exists cs, conns w' = conns w ++ [cs]
                     /\ closed cs = true /\ written cs = []))
  \/ (writes (log w') = writes (log w) ++ [bytes (request +:+ nl)]
      /\ exists cs, conns w' = conns w ++ [cs]
                    /\ closed cs = true
                    /\ written cs = [bytes (request +:+ nl)]).
Proof.
  destruct (0 <? sem w) eqn:Hsem.
  2:{ unfold _make_request, async_with_semaphore. cbn [run].
      rewrite Hsem. intros [= <- <-]. left. split; [reflexivity | now left]. }
  apply Z.ltb_lt in Hsem.
  destruct (peers w) as [|[p|] rest] eqn:Hpeers.
  1,3: unfold _make_request, async_with_semaphore, open_connection;
       cbn [run bind try_finally];
       rewrite (proj2 (Z.ltb_lt _ _) Hsem);
       cbn [peers add_log set_sem sem conns log]; rewrite Hpeers;
       cbn; intros [= <- <-]; cbn [log conns add_log set_sem]; left;
       rewrite !writes_app; cbn [writes]; rewrite !app_nil_r;
       split; [reflexivity | now left].
  rewrite (make_request_opens self request w p rest Hsem Hpeers).
  assert (Hquiet : forall (e : exn) (s : Z) (ps : list (option peer))
                          (cs : conn_state) (lg : list event),
            written cs = [] -> writes lg = writes (log w) ->
            run (try_finally
                   (try_finally (lift (inl e))
                      (let* _ := close (length (conns w)) in
                       wait_closed (length (conns w))))
                   (Release (Ret tt)))
                {| sem := s; peers := ps; conns := conns w ++ [cs];
                   log := lg |} = (o, w') ->
            writes (log w') = writes (log w)
            /\ (conns w' = conns w
                \/ exists cs0, conns w' = conns w ++ [cs0]
                               /\ closed cs0 = true /\ written cs0 = [])).
  { intros e s ps cs lg Hw Hlg. rewrite run_cleanup. intros [= _ <-].
    cbn [log conns]. rewrite writes_app. cbn [writes]. rewrite app_nil_r.
    split; [exact Hlg |]. right. exists (shut cs). now repeat split. }
  assert (Hlog : writes (log w ++ [EvAcquire; EvOpen (length (conns w));
                                   EvRead (length (conns w))
                                     (fst (readuntil (bytes ">") (connect p)))])
                 = writes (log w)).
  { rewrite writes_app. cbn [writes]. now rewrite app_nil_r. }
  assert (Hwr : written (snd (readuntil (bytes ">") (connect p))) = [])
    by now rewrite written_readuntil.
  destruct (fst (readuntil (bytes ">") (connect p))) as [e|prompt].
  { intros H. left. eapply (Hquiet e); [exact Hwr | exact Hlog | exact H]. }
  cbn [lift bind].
  destruct (negb (bytes_eqb prompt (bytes ">"))).
  { intros H. left.
    eapply (Hquiet prompt_not_found); [exact Hwr | exact Hlog | exact H]. }
  rewrite encode_ascii_spec.
  destruct (forall_chars is_ascii_char (request +:+ nl)).
  2:{ intros H. left.
      eapply (Hquiet UnicodeEncodeError); [exact Hwr | exact Hlog | exact H]. }
  cbn [lift bind write try_finally wait_for_readuntil].
  rewrite run_write_last, run_read_last.
  set (cs2 := snd (readuntil _ (send _ _))).
  assert (Hw2 : written cs2 = [bytes (request +:+ nl)]).
  { subst cs2. now rewrite written_readuntil, written_send, Hwr. }
  intros H. right.
  assert (Hend : exists r : exn + string,
            run (try_finally
                   (try_finally (lift r)
                      (let* _ := close (length (conns w)) in
                       wait_closed (length (conns w))))
                   (Release (Ret tt)))
                {| sem := sem w - 1; peers := rest;
                   conns := conns w ++ [cs2];
                   log := (log w ++ [EvAcquire; EvOpen (length (conns w));
                                     EvRead (length (conns w)) (inr prompt)])
                          ++ [EvWrite (length (conns w))
                                (bytes (request +:+ nl))]
                          ++ [EvRead (length (conns w))
                                (fst (readuntil (bytes (String LF ">"))
                                        (send (bytes (request +:+ nl))
                                           (snd (readuntil (bytes ">")
                                                   (connect p))))))] |}
            = (o, w')).
  { match type of H with
    | context [try_finally (try_finally (bind (lift ?r) _) _) _] =>
        destruct r as [e|response]
    end.
    - exists (inl e). rewrite <- H. rewrite <- !app_assoc. reflexivity.
    - exists (response_body response). rewrite <- H.
      rewrite <- !app_assoc. reflexivity. }
  destruct Hend as [r Hr]. rewrite run_cleanup in Hr.
  injection Hr as _ <-. cbn [log conns].
  rewrite !writes_app. cbn [writes]. rewrite !app_nil_r.
  split; [reflexivity |]. exists (shut cs2). now repeat split.
Qed.

End TransactionPaths.

Lemma transaction_touches_one_connection_witness :
  exists cs,
    conns (snd (run (_make_request (new "bridge") "ls2 IEF001")
                    (fresh_world [Some (answering scenario_A_response)])))
    = [cs]
    /\ closed cs = true
    /\ written cs = [bytes ("ls2 IEF001" +:+ nl)].
Proof.
  destruct (transaction_touches_one_connection (new "bridge") "ls2 IEF001"
              (fresh_world [Some (answering scenario_A_response)]) _ _
              (surjective_pairing _)) as [[H _] | [_ H]].
  - vm_compute in H. discriminate.
  - exact H.
Defined.

Section FailurePaths.

Variable self : CoolMasterNet.
Variable request : string.

(** X4.  When the connection cannot be opened the transaction raises the
    error of [open_connection]: no connection is added, nothing is written
    and the slot is given back. *)
Theorem refused_connection (w : world) :
  0 < sem w ->
  peers w = [] \/ (exists rest, peers w = None :: rest) ->
  exists w',
    run (_make_request self request) w = (Raised refused, w')
    /\ conns w' = conns w
    /\ writes (log w') = writes (log w)
    /\ sem w' = sem w.
Proof.
  intros Hsem Hpeers.
  unfold _make_request, async_with_semaphore, open_connection.
  cbn [run bind try_finally].
  rewrite (proj2 (Z.ltb_lt _ _) Hsem).
  cbn [peers add_log set_sem sem conns log].
  destruct Hpeers as [-> | [rest ->]]; cbn; eexists;
    (split; [reflexivity |]); cbn [conns log sem add_log set_sem];
    rewrite !writes_app; cbn [writes]; rewrite !app_nil_r;
    repeat split; lia.
Qed.

(** X5.  A request with a character outside ASCII is never sent: once the
    prompt has been read the encoding raises UnicodeEncodeError, nothing is
    written, the connection is closed and the slot given back. *)
Theorem non_ascii_request_not_sent (w : world) (p : peer)
    (rest : list (option peer)) :
  0 < sem w -> peers w = Some p :: rest ->
  fst (readuntil (bytes ">") (connect p)) = inr (bytes ">") ->
  forall_chars is_ascii_char request = false ->
  exists w' cs,
    run (_make_request self request) w
    = (Raised match close_error p with
              | Some e => e
              | None => UnicodeEncodeError
              end, w')
    /\ writes (log w') = writes (log w)
    /\ conns w' = conns w ++ [cs]
    /\ written cs = [] /\ closed cs = true
    /\ sem w' = sem w.
Proof.
  intros Hsem Hpeers Hprompt Hbad.
  rewrite (make_request_opens self request w p rest Hsem Hpeers).
  rewrite Hprompt. cbn [lift bind].
  change (bytes_eqb (bytes ">") (bytes ">")) with true. cbn [negb].
  rewrite encode_ascii_spec, forall_chars_append, Hbad. cbn [andb].
  change (let* data := lift (inl UnicodeEncodeError) in _)
    with (@lift string (inl UnicodeEncodeError)).
  rewrite run_cleanup, c_peer_readuntil. cbn [connect c_peer].
  eexists. exists (shut (snd (readuntil (bytes ">") (connect p)))). split.
  - f_equal. now destruct (close_error p).
  - cbn [log conns sem shut written closed].
    rewrite !writes_app. cbn [writes]. rewrite !app_nil_r.
    rewrite written_readuntil. cbn [connect written].
    repeat split; lia.
Qed.

(** X6.  Once the request has been written, a response that does not come
    (the read raises [e]: a timeout, an end of stream before the
    terminator, an overrun) makes the transaction raise [e]; the request
    has been sent once, and the connection is closed and the slot given
    back all the same. *)
Theorem response_failure_after_send (w : world) (p : peer)
    (rest : list (option peer)) (cs1 : conn_state) (e : exn) :
  0 < sem w -> peers w = Some p :: rest ->
  readuntil (bytes ">") (connect p) = (inr (bytes ">"), cs1) ->
  forall_chars is_ascii_char request = true ->
  fst (readuntil (bytes (String LF ">")) (send (bytes (request +:+ nl)) cs1))
  = inl e ->
  exists w' cs,
    run (_make_request self request) w
    = (Raised match close_error p with
              | Some e' => e'
              | None => e
              end, w')
    /\ writes (log w') = writes (log w) ++ [bytes (request +:+ nl)]
    /\ conns w' = conns w ++ [cs]
    /\ closed cs = true
    /\ sem w' = sem w.
Proof.
  intros Hsem Hpeers Hprompt Hascii Hresp.
  rewrite (make_request_opens self request w p rest Hsem Hpeers).
  rewrite Hprompt. cbn [fst snd lift bind].
  change (bytes_eqb (bytes ">") (bytes ">")) with true. cbn [negb].
  rewrite encode_ascii_spec, forall_chars_append, Hascii.
  change (forall_chars is_ascii_char nl) with true.
  cbn [andb lift bind write try_finally wait_for_readuntil].
  rewrite run_write_last, run_read_last. rewrite Hresp.
  change (let* response := lift (inl e) in _) with (@lift string (inl e)).
  rewrite run_cleanup, c_peer_readuntil, c_peer_send.
  assert (Hp : c_peer cs1 = p).
  { pose proof (c_peer_readuntil (bytes ">") (connect p)) as E.
    rewrite Hprompt in E. exact E. }
  rewrite Hp. eexists. eexists. split.
  - f_equal. now destruct (close_error p).
  - cbn [log conns sem shut closed].
    rewrite !writes_app. cbn [writes]. rewrite !app_nil_r.
    repeat split; lia.
Qed.

End FailurePaths.

(** X7.  Framing and unframing: for an ASCII text [body], the response
    [body OK CR LF >] is returned as [body]; and a response [body LF >] in
    which [body LF] does not end in OK CR LF is returned as [body LF], the
    line feed kept.  A response with a byte outside ASCII raises
    UnicodeDecodeError. *)
Theorem response_body_unframes (body : string) :
  forall_chars is_ascii_char body = true ->
  response_body (bytes (body +:+ "OK" +:+ crlf +:+ ">")) = inr body
  /\ (endswith (body +:+ nl) ("OK" +:+ crlf) = false ->
      response_body (bytes (body +:+ nl +:+ ">")) = inr (body +:+ nl))
  /\ (forall response,
        forall_chars is_ascii_char (string_of_list_byte response) = false ->
        response_body response = inl UnicodeDecodeError).
Proof.
  intros Hascii. split; [| split].
  - unfold response_body.
    rewrite decode_bytes by (now rewrite forall_chars_append, Hascii).
    assert (E1 : endswith (body +:+ "OK" +:+ crlf +:+ ">") (String LF ">")
                 = true).
    { apply endswith_spec. exists (body +:+ "OK" +:+ String CR EmptyString).
      now rewrite !append_assoc. }
    rewrite E1.
    assert (E2 : slice_drop_last 1 (body +:+ "OK" +:+ crlf +:+ ">")
                 = body +:+ "OK" +:+ crlf).
    { replace (body +:+ "OK" +:+ crlf +:+ ">")
        with ((body +:+ "OK" +:+ crlf) +:+ ">") by now rewrite !append_assoc.
      apply (slice_drop_last_append _ ">"). }
    rewrite E2.
    assert (E3 : endswith (body +:+ "OK" +:+ crlf) ("OK" +:+ crlf) = true)
      by (apply endswith_spec; now exists body).
    rewrite E3. f_equal. apply (slice_drop_last_append body ("OK" +:+ crlf)).
  - intros Hno. unfold response_body.
    rewrite decode_bytes by (now rewrite forall_chars_append, Hascii).
    assert (E1 : endswith (body +:+ nl +:+ ">") (String LF ">") = true)
      by (apply endswith_spec; now exists body).
    rewrite E1.
    assert (E2 : slice_drop_last 1 (body +:+ nl +:+ ">") = body +:+ nl).
    { replace (body +:+ nl +:+ ">") with ((body +:+ nl) +:+ ">")
        by now rewrite !append_assoc.
      apply (slice_drop_last_append _ ">"). }
    now rewrite E2, Hno.
  - intros response Hbad. unfold response_body, decode_ascii.
    now rewrite Hbad.
Qed.

Lemma refused_connection_witness :
  exists w',
    run (_make_request (new "bridge") "ls2") (fresh_world [None])
    = (Raised refused, w')
    /\ conns w' = [] /\ writes (log w') = [] /\ sem w' = 3.
Proof.
  apply (refused_connection (new "bridge") "ls2" (fresh_world [None]));
    [reflexivity |].
  right. now exists [].
Defined.

Lemma non_ascii_request_not_sent_witness :
  exists w' cs,
    run (_make_request (new "bridge") (String "233" EmptyString))
        (fresh_world [Some (answering "x")])
    = (Raised UnicodeEncodeError, w')
    /\ writes (log w') = []
    /\ conns w' = [cs]
    /\ written cs = [] /\ closed cs = true
    /\ sem w' = 3.
Proof.
  apply (non_ascii_request_not_sent (new "bridge") (String "233" EmptyString)
           (fresh_world [Some (answering "x")]) (answering "x") []);
    reflexivity.
Defined.

Lemma response_failure_after_send_witness :
  exists w' cs,
    run (_make_request (new "bridge") "ls2")
        (fresh_world [Some (answering EmptyString)])
    = (Raised TimeoutError, w')
    /\ writes (log w') = [bytes ("ls2" +:+ nl)]
    /\ conns w' = [cs]
    /\ closed cs = true
    /\ sem w' = 3.
Proof.
  eapply (response_failure_after_send (new "bridge") "ls2"
            (fresh_world [Some (answering EmptyString)])
            (answering EmptyString) [] _ TimeoutError);
    reflexivity.
Defined.

Lemma response_body_unframes_witness :
  response_body (bytes ("Unit: X" +:+ crlf +:+ "OK" +:+ crlf +:+ ">"))
  = inr ("Unit: X" +:+ crlf).
Proof.
  apply (response_body_unframes ("Unit: X" +:+ crlf)). reflexivity.
Defined.

(* ===================================================================== *)
(** * Further properties: [info] and the swing table                       *)
(* ===================================================================== *)

Lemma match_colon_has_colon (s : string) (n : nat) :
  match_colon s = Some n -> has_char ":" s = true.
Proof.
  intros H. destruct (match_colon_spec s n H) as (a & b & Hs & _).
  set (t := drop_chars n s) in Hs. clearbody t. subst s. clear H.
  induction a as [|c a IH]; cbn in *.
  - reflexivity.
  - rewrite IH. apply orb_true_r.
Qed.

(** A line with a colon is cut in two. *)
Lemma split_with_colon (s : string) :
  has_char ":" s = true -> exists k v, re_split match_colon s 1 = [k; v].
Proof.
  unfold re_split. induction s as [|c r IH]; intros H; [discriminate |].
  cbn [re_split_go Nat.eqb Nat.ltb Nat.leb orb].
  destruct (match_colon (String c r)) as [[|n]|] eqn:E.
  - apply match_colon_spec in E. destruct E as (_ & _ & _ & _ & _ & _ & E).
    lia.
  - rewrite split_no_more. eauto.
  - cbn [has_char] in H.
    destruct (Ascii.eqb_spec c ":"%char) as [-> | _]; [discriminate |].
    cbn [orb] in H. destruct (IH H) as (k & v & ->). cbn. eauto.
Qed.

(** A line without a colon is not cut. *)
Lemma split_without_colon (s : string) :
  has_char ":" s = false -> re_split match_colon s 1 = [s].
Proof.
  unfold re_split. induction s as [|c r IH]; intros H; [reflexivity |].
  cbn [re_split_go Nat.eqb Nat.ltb Nat.leb orb].
  destruct (match_colon (String c r)) as [n|] eqn:E.
  - apply match_colon_has_colon in E. congruence.
  - cbn [has_char] in H. apply orb_false_iff in H. destruct H as [_ H].
    now rewrite (IH H).
Qed.

Lemma dict_go_bad (pre : list (list string)) :
  forall (i : nat) (m : gmap string string) (line : string)
         (rest : list (list string)),
    Forall (fun kv => length kv = 2%nat) pre ->
    dict_go i (pre ++ [line] :: rest) m
    = inl (ValueError ("dictionary update sequence element #"
                       +:+ pretty (i + length pre)%nat
                       +:+ " has length 1; 2 is required")).
Proof.
  induction pre as [|kv pre IH]; intros i m line rest Hpre.
  - cbn. now rewrite Nat.add_0_r.
  - apply Forall_cons in Hpre. destruct Hpre as [Hkv Hpre].
    destruct kv as [|a [|b [|c l]]]; try discriminate.
    cbn [app dict_go length]. rewrite (IH (S i) _ line rest Hpre).
    now replace (S i + length pre)%nat with (i + S (length pre))%nat by lia.
Qed.

(** X8.  [info] needs a colon on every line: when line [i] of the trimmed
    body is the first without one, [info] raises the ValueError of [dict]
    for element [i]; the transaction has been made all the same.  An empty
    body is one empty line, so [info] raises for element 0. *)
Theorem info_line_without_colon (self : CoolMasterNet) (w w' : world)
    (raw : string) (pre : list string) (line : string) (rest : list string) :
  run (_make_request self "set") w = (Returned raw, w') ->
  split crlf (strip raw) = pre ++ line :: rest ->
  Forall (fun l => has_char ":" l = true) pre ->
  has_char ":" line = false ->
  run (info self) w
  = (Raised (ValueError ("dictionary update sequence element #"
                         +:+ pretty (length pre)
                         +:+ " has length 1; 2 is required")), w').
Proof.
  intros Hrun Hlines Hpre Hline.
  unfold info. rewrite run_bind, Hrun, Hlines, map_app. cbn [map].
  rewrite (split_without_colon line Hline). unfold dict.
  rewrite dict_go_bad.
  - now rewrite length_map.
  - apply Forall_map. eapply Forall_impl; [exact Hpre |].
    intros l Hl. cbn. now destruct (split_with_colon l Hl) as (k & v & ->).
Qed.

Lemma info_line_without_colon_witness :
  fst (run (info (new "bridge"))
           (fresh_world [Some (answering ("OK" +:+ crlf +:+ ">"))]))
  = Raised (ValueError
              "dictionary update sequence element #0 has length 1; 2 is required").
Proof.
  rewrite (info_line_without_colon (new "bridge")
             (fresh_world [Some (answering ("OK" +:+ crlf +:+ ">"))])
             (snd (run (_make_request (new "bridge") "set")
                       (fresh_world [Some (answering ("OK" +:+ crlf +:+ ">"))])))
             EmptyString [] EmptyString []);
    try reflexivity.
  constructor.
Defined.

Lemma dict_get_In (d : list (string * string)) (k v : string) :
  dict_get d k = Some v -> In (k, v) d.
Proof.
  induction d as [|[k' v'] d IH]; cbn; [discriminate |].
  destruct (String.eqb_spec k k') as [-> | _].
  - intros [= ->]. now left.
  - intros H. right. now apply IH.
Qed.

(** X9.  The two swing tables are inverse of each other: a code has a name
    exactly when that name has that code; the names that [set_swing]
    accepts are the seven names of the table, all different. *)
Theorem swing_tables_inverse :
  (forall code name,
     dict_get _SWING_CHAR_TO_NAME code = Some name
     <-> dict_get _SWING_NAME_TO_CHAR name = Some code)
  /\ (forall name,
        In name SWING_MODES
        <-> exists code, dict_get _SWING_NAME_TO_CHAR name = Some code)
  /\ NoDup SWING_MODES /\ length SWING_MODES = 7%nat.
Proof.
  assert (H1 : forall code name,
            dict_get _SWING_CHAR_TO_NAME code = Some name
            <-> dict_get _SWING_NAME_TO_CHAR name = Some code).
  { intros code name. split; intros H; apply dict_get_In in H; cbn in H;
      repeat (destruct H as [[= <- <-] | H]; [reflexivity |]);
      contradiction. }
  split; [exact H1 | split; [| split]].
  - intros name. split.
    + intros Hin. cbn in Hin.
      repeat (destruct Hin as [<- | Hin]; [eexists; reflexivity |]).
      contradiction.
    + intros [code H]. apply dict_get_In in H. cbn in H.
      repeat (destruct H as [[= <- <-] | H]; [cbn; tauto |]).
      contradiction.
  - apply (bool_decide_unpack _). vm_compute. exact I.
  - reflexivity.
Qed.

Section ParseOutcomes.

Variable bridge : CoolMasterNet.
Variables unit_id swing_raw : string.

(** A snapshot that was built, read back to the line it came from. *)
Lemma parse_inversion (raw : string) (u : CoolMasterNetUnit) :
  _parse bridge unit_id raw swing_raw = inr u ->
  exists f0 f1 f2 f3 f4 f5 f6 f7 f8 c x y,
    fields_of raw = [f0; f1; f2; f3; f4; f5; f6; f7; f8]
    /\ last_char f2 = Some c
    /\ py_float (slice_drop_last 1 f2) = inr x
    /\ py_float (slice_drop_last 1 f3) = inr y
    /\ u = {| _raw := raw; _swing_raw := swing_raw; _unit_id := unit_id;
              _bridge := bridge;
              _is_on := String.eqb f1 "ON";
              _temperature_unit :=
                if Ascii.eqb c "F"%char then "imperial" else "celsius";
              _thermostat := x;
              _temperature := y;
              _fan_speed := lower f4;
              _mode := lower f5;
              _error_code :=
                if negb (String.eqb f6 "OK") then Some f6 else None;
              _clean_filter := String.eqb f7 "#";
              _demand := String.eqb f8 "1";
              _swing := dict_get _SWING_CHAR_TO_NAME swing_raw |}.
Proof.
  intros Hu.
  assert (Hlen : length (fields_of raw) = 9%nat).
  { unfold _parse in Hu. fold (fields_of raw) in Hu.
    destruct (length (fields_of raw) =? 9)%nat eqn:El;
      [now apply Nat.eqb_eq in El | discriminate]. }
  destruct (nine_fields raw Hlen)
    as (f0 & f1 & f2 & f3 & f4 & f5 & f6 & f7 & f8 & Hf).
  destruct (unit_suffix_present raw f2 Hlen) as [c Hc];
    [now rewrite Hf |].
  rewrite (parse_nine bridge unit_id swing_raw raw _ _ _ _ _ _ _ _ _ c Hf Hc)
    in Hu.
  destruct (py_float (slice_drop_last 1 f2)) as [e|x] eqn:Ex;
    [discriminate |].
  destruct (py_float (slice_drop_last 1 f3)) as [e|y] eqn:Ey;
    [discriminate |].
  cbn [and_then] in Hu. injection Hu as <-.
  exists f0, f1, f2, f3, f4, f5, f6, f7, f8, c, x, y.
  split; [exact Hf |]. split; [exact Hc |]. now repeat split.
Qed.

(** X10.  The only checks of the constructor are the count of fields and
    the two numbers: a snapshot is built exactly when the line has nine
    fields and the thermostat and temperature tokens, less their last
    character, are numbers for [float].  The on/off, fan, mode, error,
    filter and demand fields are taken as they come. *)
Theorem parse_succeeds_iff (raw : string) :
  (exists u, _parse bridge unit_id raw swing_raw = inr u)
  <-> exists f2 f3 x y,
        length (fields_of raw) = 9%nat
        /\ fields_of raw !! 2%nat = Some f2
        /\ fields_of raw !! 3%nat = Some f3
        /\ py_float (slice_drop_last 1 f2) = inr x
        /\ py_float (slice_drop_last 1 f3) = inr y.
Proof.
  split.
  - intros [u Hu].
    destruct (parse_inversion raw u Hu)
      as (f0 & f1 & f2 & f3 & f4 & f5 & f6 & f7 & f8 & c & x & y
          & Hf & _ & Hx & Hy & _).
    exists f2, f3, x, y. rewrite Hf. now repeat split.
  - intros (f2 & f3 & x & y & Hlen & H2 & H3 & Hx & Hy).
    destruct (unit_suffix_present raw f2 Hlen H2) as [c Hc].
    destruct (nine_fields raw Hlen)
      as (f0 & f1 & g2 & g3 & f4 & f5 & f6 & f7 & f8 & Hf).
    rewrite Hf in H2, H3. cbn in H2, H3.
    injection H2 as ->. injection H3 as ->.
    rewrite (parse_nine bridge unit_id swing_raw raw _ _ _ _ _ _ _ _ _ c Hf Hc).
    rewrite Hx, Hy. cbn [and_then]. eauto.
Qed.

End ParseOutcomes.

Section ParseFields.

Variable bridge : CoolMasterNet.
Variables unit_id swing_raw : string.

(** X11.  What a snapshot holds: the unit is on exactly when field 1 is ON
    (in capitals); the error code is absent exactly when field 6 is OK and
    is field 6 otherwise; the filter flag is set exactly for [#] and the
    demand flag exactly for [1]; fan speed and mode are fields 4 and 5 in
    lower case; the swing is the name of the raw swing code in the table,
    none for the empty code; identifier, bridge and raw line are those
    given. *)
Theorem parse_fields (raw : string) (u : CoolMasterNetUnit) :
  _parse bridge unit_id raw swing_raw = inr u ->
  exists f1 f4 f5 f6 f7 f8,
    fields_of raw !! 1%nat = Some f1 /\ fields_of raw !! 4%nat = Some f4
    /\ fields_of raw !! 5%nat = Some f5 /\ fields_of raw !! 6%nat = Some f6
    /\ fields_of raw !! 7%nat = Some f7 /\ fields_of raw !! 8%nat = Some f8
    /\ (_is_on u = true <-> f1 = "ON")
    /\ (_error_code u = None <-> f6 = "OK")
    /\ (forall e, _error_code u = Some e -> e = f6)
    /\ (_clean_filter u = true <-> f7 = "#")
    /\ (_demand u = true <-> f8 = "1")
    /\ _fan_speed u = lower f4 /\ _mode u = lower f5
    /\ _swing u = dict_get _SWING_CHAR_TO_NAME swing_raw
    /\ (swing_raw = EmptyString -> _swing u = None)
    /\ _unit_id u = unit_id /\ _bridge u = bridge /\ _raw u = raw.
Proof.
  intros Hu.
  destruct (parse_inversion bridge unit_id swing_raw raw u Hu)
    as (f0 & f1 & f2 & f3 & f4 & f5 & f6 & f7 & f8 & c & x & y
        & Hf & _ & _ & _ & ->).
  exists f1, f4, f5, f6, f7, f8. rewrite Hf. cbn.
  do 6 (split; [reflexivity |]).
  split; [apply String.eqb_eq |].
  split; [destruct (String.eqb_spec f6 "OK"); cbn; split; congruence |].
  split; [intros e; destruct (String.eqb_spec f6 "OK"); cbn; congruence |].
  split; [apply String.eqb_eq |]. split; [apply String.eqb_eq |].
  do 3 (split; [reflexivity |]).
  split; [now intros -> | now repeat split].
Qed.

End ParseFields.

Lemma parse_fields_witness :
  _is_on scenario_A_unit = true /\ _error_code scenario_A_unit = None
  /\ _swing scenario_A_unit = None.
Proof.
  destruct (parse_fields (new "bridge") "IEF001" EmptyString scenario_A_line
              scenario_A_unit ltac:(vm_compute; reflexivity))
    as (f1 & f4 & f5 & f6 & f7 & f8 & H1 & _ & _ & H6 & _ & _
        & Hon & Herr & _ & _ & _ & _ & _ & _ & Hsw & _).
  vm_compute in H1, H6. injection H1 as <-. injection H6 as <-.
  split; [now apply Hon |]. split; [now apply Herr | now apply Hsw].
Defined.

(* ===================================================================== *)
(** * Further properties: [create], [refresh] and the commands             *)
(* ===================================================================== *)

Lemma run_bind_returned {A B : Type} (p : prog A) (f : A -> prog B)
    (w w' : world) (b : B) :
  run (bind p f) w = (Returned b, w') ->
  exists a w1, run p w = (Returned a, w1) /\ run (f a) w1 = (Returned b, w').
Proof.
  rewrite run_bind. destruct (run p w) as [[a|e|] w1]; try discriminate.
  intros H. now exists a, w1.
Qed.

Section Create.

Variable bridge : CoolMasterNet.
Variable unit_id : string.

(** What [create] returns and writes. *)
Lemma create_result (raw : option string) (w w' : world)
    (u : CoolMasterNetUnit) (k : string) :
  run (create bridge unit_id raw) w = (Returned (u, k), w') ->
  k = unit_id /\ _unit_id u = unit_id /\ _bridge u = bridge
  /\ writes (log w') = writes (log w) ++ create_writes bridge unit_id raw
  /\ (exists w1,
        match raw with
        | Some r => _raw u = r /\ w1 = w
        | None =>
            exists body,
              run (_make_request bridge ("ls2 " +:+ unit_id)) w
              = (Returned body, w1)
              /\ _raw u = strip body
        end
        /\ if _swing_support bridge
           then exists answer,
                  run (_make_request bridge ("query " +:+ unit_id +:+ " s")) w1
                  = (Returned answer, w')
                  /\ _swing_raw u = strip answer
           else w' = w1 /\ _swing_raw u = EmptyString)
  /\ _parse bridge unit_id (_raw u) (_swing_raw u) = inr u
  /\ (_swing_support bridge = false ->
      _swing_raw u = EmptyString /\ _swing u = None)
  /\ sem w' = sem w.
Proof.
  unfold create, create_writes. intros H.
  apply run_bind_returned in H. destruct H as (raw0 & w1 & H1 & H).
  apply run_bind_returned in H. destruct H as (sw & w2 & H2 & H).
  apply run_bind_returned in H. destruct H as (u0 & w3 & H3 & H).
  cbn [run] in H. injection H as <- <- <-.
  assert (Hp : _parse bridge unit_id raw0 sw = inr u0 /\ w3 = w2).
  { destruct (_parse bridge unit_id raw0 sw); cbn in H3;
      [discriminate | now injection H3 as <- <-]. }
  destruct Hp as [Hp ->].
  assert (Hw1 : writes (log w1)
                = writes (log w)
                  ++ match raw with
                     | None => [bytes ("ls2 " +:+ unit_id +:+ nl)]
                     | Some _ => []
                     end
                /\ sem w1 = sem w
                /\ match raw with
                   | Some r => raw0 = r /\ w1 = w
                   | None =>
                       exists body,
                         run (_make_request bridge ("ls2 " +:+ unit_id)) w
                         = (Returned body, w1)
                         /\ raw0 = strip body
                   end).
  { destruct raw as [r|].
    - cbn in H1. injection H1 as <- <-. now rewrite app_nil_r.
    - apply run_bind_returned in H1. destruct H1 as (body & w0 & Hb & Hr).
      cbn in Hr. injection Hr as <- <-.
      destruct (make_request_returned _ _ _ _ _ Hb) as [Hw Hs].
      rewrite Hw, !append_assoc. eauto. }
  destruct Hw1 as (Hw1 & Hs1 & Hraw).
  assert (Hw2 : writes (log w2)
                = writes (log w1)
                  ++ (if _swing_support bridge
                      then [bytes ("query " +:+ unit_id +:+ " s" +:+ nl)]
                      else [])
                /\ sem w2 = sem w1
                /\ (_swing_support bridge = false -> sw = EmptyString)
                /\ if _swing_support bridge
                   then exists answer,
                          run (_make_request bridge
                                 ("query " +:+ unit_id +:+ " s")) w1
                          = (Returned answer, w2)
                          /\ sw = strip answer
                   else w2 = w1 /\ sw = EmptyString).
  { destruct (_swing_support bridge).
    - apply run_bind_returned in H2. destruct H2 as (body & w0 & Hb & Hr).
      cbn in Hr. injection Hr as <- <-.
      destruct (make_request_returned _ _ _ _ _ Hb) as [Hw Hs].
      rewrite Hw, !append_assoc. repeat split; eauto. discriminate.
    - cbn in H2. injection H2 as <- <-. now rewrite app_nil_r. }
  destruct Hw2 as (Hw2 & Hs2 & Hsw & Hquery).
  pose proof Hp as Hp0.
  destruct (parse_inversion bridge unit_id sw raw0 u0 Hp)
    as (f0 & f1 & f2 & f3 & f4 & f5 & f6 & f7 & f8 & c & x & y
        & _ & _ & _ & _ & Hu).
  assert (Hfields : _unit_id u0 = unit_id /\ _bridge u0 = bridge
                    /\ _raw u0 = raw0 /\ _swing_raw u0 = sw
                    /\ _swing u0 = dict_get _SWING_CHAR_TO_NAME sw).
  { rewrite Hu. now cbn. }
  destruct Hfields as (Hf1 & Hf2 & Hf3 & Hf4 & Hf5).
  do 3 (split; [assumption || reflexivity |]).
  split; [rewrite Hw2, Hw1; now rewrite app_assoc |].
  split.
  { exists w1. rewrite Hf3, Hf4. split; [exact Hraw | exact Hquery]. }
  split; [now rewrite Hf3, Hf4 |].
  split; [| lia].
  intros Hoff. rewrite Hf5, Hf4, (Hsw Hoff). now split.
Qed.

(** X12.  A snapshot that [create] returns carries the identifier and the
    bridge it was asked for, and [create] returns that identifier with it.
    On the wire it has written the listing of the unit, unless the line
    was given, and then the swing query if the bridge has swing support,
    and nothing else.  The raw line is the one given, or the trimmed body
    that the transaction [ls2 id] returned; with swing support the swing
    code is the trimmed body that the transaction [query id s] returned on
    the store the first one left, and without it the code is empty and the
    swing none.  The snapshot is the parse of that line with that code,
    and the semaphore is as before. *)
Theorem create_returns (raw : option string) (w w' : world)
    (u : CoolMasterNetUnit) (k : string) :
  run (create bridge unit_id raw) w = (Returned (u, k), w') ->
  k = unit_id /\ _unit_id u = unit_id /\ _bridge u = bridge
  /\ writes (log w') = writes (log w) ++ create_writes bridge unit_id raw
  /\ (exists w1,
        match raw with
        | Some r => _raw u = r /\ w1 = w
        | None =>
            exists body,
              run (_make_request bridge ("ls2 " +:+ unit_id)) w
              = (Returned body, w1)
              /\ _raw u = strip body
        end
        /\ if _swing_support bridge
           then exists answer,
                  run (_make_request bridge ("query " +:+ unit_id +:+ " s")) w1
                  = (Returned answer, w')
                  /\ _swing_raw u = strip answer
           else w' = w1 /\ _swing_raw u = EmptyString)
  /\ _parse bridge unit_id (_raw u) (_swing_raw u) = inr u
  /\ (_swing_support bridge = false ->
      _swing_raw u = EmptyString /\ _swing u = None)
  /\ sem w' = sem w.
Proof. exact (create_result raw w w' u k). Qed.

End Create.

Lemma startswith_spec (s p : string) :
  startswith s p = true <-> exists b, s = p +:+ b.
Proof.
  revert s. induction p as [|a p IH]; intros s.
  - split; [intros _; now exists s | intros _; now destruct s].
  - destruct s as [|c s]; cbn [startswith String.append].
    + split; [discriminate | intros [b [=]]].
    + rewrite andb_true_iff, IH. split.
      * intros [Ha [b ->]]. apply Ascii.eqb_eq in Ha. subst. now exists b.
      * intros [b [= -> ->]]. split; [apply Ascii.eqb_refl | now exists b].
Qed.

(** [s.replace(old, new)] is [s] when [old] does not occur in [s]. *)
Lemma replace_absent (old new s : string) :
  (forall a b, s <> a +:+ old +:+ b) -> replace old new s = s.
Proof.
  unfold replace. induction s as [|c r IH]; intros H; [reflexivity |].
  cbn [replace_go].
  destruct (startswith (String c r) old) eqn:E.
  - apply startswith_spec in E. destruct E as [b Hb].
    now destruct (H EmptyString b).
  - f_equal. apply IH. intros a b Hr. apply (H (String c a) b).
    cbn. now rewrite Hr.
Qed.

Section Commands.

Variable self : CoolMasterNetUnit.

(** What [refresh] returns and writes. *)
Lemma refresh_result (w w' : world) (u : CoolMasterNetUnit) :
  run (refresh self) w = (Returned u, w') ->
  _unit_id u = _unit_id self /\ _bridge u = _bridge self
  /\ writes (log w')
     = writes (log w) ++ create_writes (_bridge self) (_unit_id self) None.
Proof.
  unfold refresh. intros H.
  apply run_bind_returned in H. destruct H as ([u0 k] & w1 & H1 & H).
  cbn in H. injection H as <- <-.
  destruct (create_result _ _ _ _ _ _ _ H1) as (_ & Hid & Hb & Hw & _).
  now repeat split.
Qed.

(** X13.  [refresh] returns a snapshot of the same unit on the same
    bridge, having written the listing of the unit and, with swing support,
    the swing query. *)
Theorem refresh_same_unit (w w' : world) (u : CoolMasterNetUnit) :
  run (refresh self) w = (Returned u, w') ->
  _unit_id u = _unit_id self /\ _bridge u = _bridge self
  /\ writes (log w')
     = writes (log w) ++ create_writes (_bridge self) (_unit_id self) None.
Proof. exact (refresh_result w w' u). Qed.

Lemma command_runs (request : string) (w w' : world)
    (o : outcome CoolMasterNetUnit) :
  run (let* _ := _make_unit_request self request in refresh self) w = (o, w') ->
  (forall u, o = Returned u ->
     _unit_id u = _unit_id self /\ _bridge u = _bridge self
     /\ writes (log w')
        = writes (log w)
          ++ bytes (replace "UID" (_unit_id self) request +:+ nl)
             :: create_writes (_bridge self) (_unit_id self) None)
  /\ (forall e w1,
        run (_make_request (_bridge self)
               (replace "UID" (_unit_id self) request)) w = (Raised e, w1) ->
        o = Raised e /\ w' = w1).
Proof.
  intros H. split.
  - intros u ->. apply run_bind_returned in H.
    destruct H as (body & w1 & Hb & Hr).
    destruct (make_request_returned _ _ _ _ _ Hb) as [Hw _].
    destruct (refresh_result _ _ _ Hr) as (Hid & Hbr & Hw').
    split; [exact Hid |]. split; [exact Hbr |].
    rewrite Hw', Hw. now rewrite <- app_assoc.
  - intros e w1 Hfail. rewrite run_bind in H. unfold _make_unit_request in H.
    rewrite Hfail in H. now injection H as <- <-.
Qed.

Lemma command_runs_at (request pre suf : string) (w w' : world)
    (o : outcome CoolMasterNetUnit) :
  replace "UID" (_unit_id self) request = pre +:+ _unit_id self +:+ suf ->
  run (let* _ := _make_unit_request self request in refresh self) w = (o, w') ->
  (forall u, o = Returned u ->
     _unit_id u = _unit_id self /\ _bridge u = _bridge self
     /\ writes (log w')
        = writes (log w)
          ++ bytes (pre +:+ _unit_id self +:+ suf +:+ nl)
             :: create_writes (_bridge self) (_unit_id self) None)
  /\ (forall e w1,
        run (_make_request (_bridge self) (pre +:+ _unit_id self +:+ suf)) w
        = (Raised e, w1) ->
        o = Raised e /\ w' = w1).
Proof.
  intros Heq H. apply command_runs in H. rewrite Heq in H.
  now rewrite !append_assoc in H.
Qed.

(** X14.  The commands with a fixed text (on, off, filt, the six locks and
    the five modes through [set_mode]): when one returns, it has written
    its command with the unit identifier in place, then what a refresh
    writes, and the snapshot is of the same unit on the same bridge; when
    the transaction of the command raises, that exception is the outcome
    and no refresh is made. *)
Theorem fixed_commands_wire (p : prog CoolMasterNetUnit) (pre suf : string)
    (w w' : world) (o : outcome CoolMasterNetUnit) :
  In (p, (pre, suf)) (fixed_commands self) ->
  run p w = (o, w') ->
  (forall u, o = Returned u ->
     _unit_id u = _unit_id self /\ _bridge u = _bridge self
     /\ writes (log w')
        = writes (log w)
          ++ bytes (pre +:+ _unit_id self +:+ suf +:+ nl)
             :: create_writes (_bridge self) (_unit_id self) None)
  /\ (forall e w1,
        run (_make_request (_bridge self) (pre +:+ _unit_id self +:+ suf)) w
        = (Raised e, w1) ->
        o = Raised e /\ w' = w1).
Proof.
  intros Hin. unfold fixed_commands in Hin. cbn [In] in Hin.
  repeat (destruct Hin as [[= <- <- <-] | Hin];
          [intros Hrun;
           refine (command_runs_at _ _ _ w w' o _ Hrun); reflexivity |]).
  contradiction.
Qed.

(** X15.  [set_fan_speed] puts the unit identifier in place of every UID of
    the request, the caller's value included: the command written is
    [fspeed], the identifier, and the value with its own UIDs replaced.  A
    value in which the text UID does not occur is sent as it is. *)
Theorem set_fan_speed_wire (value : string) (w w' : world)
    (u : CoolMasterNetUnit) :
  run (set_fan_speed self value) w = (Returned u, w') ->
  _unit_id u = _unit_id self /\ _bridge u = _bridge self
  /\ writes (log w')
     = writes (log w)
       ++ bytes ("fspeed " +:+ _unit_id self +:+ " "
                 +:+ replace "UID" (_unit_id self) value +:+ nl)
          :: create_writes (_bridge self) (_unit_id self) None
  /\ ((forall a b, value <> a +:+ "UID" +:+ b) ->
      replace "UID" (_unit_id self) value = value).
Proof.
  intros H. unfold set_fan_speed in H.
  apply (command_runs ("fspeed UID " +:+ value)) in H.
  destruct H as [H _]. destruct (H u eq_refl) as (Hid & Hb & Hw).
  split; [exact Hid |]. split; [exact Hb |]. split.
  - rewrite Hw. do 3 f_equal. unfold replace. cbn.
    now rewrite !append_assoc.
  - apply replace_absent.
Qed.

End Commands.

Lemma create_returns_witness :
  exists u w',
    run (create (new "bridge") "IEF001" None)
        (fresh_world [Some (answering scenario_A_response)])
    = (Returned (u, "IEF001"), w')
    /\ _unit_id u = "IEF001"
    /\ writes (log w') = [bytes ("ls2 IEF001" +:+ nl)].
Proof.
  eexists. eexists. split; [vm_compute; reflexivity |].
  destruct (create_returns (new "bridge") "IEF001" None
              (fresh_world [Some (answering scenario_A_response)]) _ _ _
              ltac:(vm_compute; reflexivity))
    as (_ & Hid & _ & Hw & _).
  split; [exact Hid | exact Hw].
Defined.

Lemma refresh_same_unit_witness :
  exists u w',
    run (refresh scenario_A_unit)
        (fresh_world [Some (answering scenario_A_response)])
    = (Returned u, w')
    /\ _unit_id u = "IEF001" /\ _bridge u = new "bridge".
Proof.
  eexists. eexists. split; [vm_compute; reflexivity |].
  destruct (refresh_same_unit scenario_A_unit
              (fresh_world [Some (answering scenario_A_response)]) _ _
              ltac:(vm_compute; reflexivity))
    as (Hid & Hb & _).
  split; [exact Hid | exact Hb].
Defined.

Lemma fixed_commands_wire_witness :
  exists u w',
    run (lockon scenario_A_unit)
        (fresh_world [Some (answering ("OK" +:+ crlf +:+ ">"));
                      Some (answering scenario_A_response)])
    = (Returned u, w')
    /\ writes (log w')
       = [bytes ("lock IEF001 +o" +:+ nl); bytes ("ls2 IEF001" +:+ nl)].
Proof.
  eexists. eexists. split; [vm_compute; reflexivity |].
  destruct (proj1 (fixed_commands_wire scenario_A_unit
                     (lockon scenario_A_unit) "lock " " +o"
                     (fresh_world [Some (answering ("OK" +:+ crlf +:+ ">"));
                                   Some (answering scenario_A_response)])
                     _ _ ltac:(cbn; tauto) ltac:(vm_compute; reflexivity))
              _ eq_refl) as (_ & _ & Hw).
  exact Hw.
Defined.

(** The caller's value is the text UID itself. *)
Lemma set_fan_speed_wire_witness :
  exists u w',
    run (set_fan_speed scenario_A_unit "UID")
        (fresh_world [Some (answering ("OK" +:+ crlf +:+ ">"));
                      Some (answering scenario_A_response)])
    = (Returned u, w')
    /\ writes (log w')
       = [bytes ("fspeed IEF001 IEF001" +:+ nl); bytes ("ls2 IEF001" +:+ nl)].
Proof.
  eexists. eexists. split; [vm_compute; reflexivity |].
  destruct (set_fan_speed_wire scenario_A_unit "UID"
              (fresh_world [Some (answering ("OK" +:+ crlf +:+ ">"));
                            Some (answering scenario_A_response)])
              _ _ ltac:(vm_compute; reflexivity)) as (_ & _ & Hw & _).
  exact Hw.
Defined.

(* ===================================================================== *)
(** * Further properties: [status]                                         *)
(* ===================================================================== *)

Section Status.

Variable self : CoolMasterNet.

(** Without swing support and with its line given, [create] waits for
    nothing: it is the constructor. *)
Lemma create_pure (unit_id raw : string) :
  _swing_support self = false ->
  create self unit_id (Some raw)
  = match _parse self unit_id raw EmptyString with
    | inr u => Ret (u, unit_id)
    | inl e => Raise e
    end.
Proof.
  intros Hsw. unfold create. rewrite Hsw. cbn [bind].
  now destruct (_parse self unit_id raw EmptyString).
Qed.

Lemma gather_raised {A : Type} (sched : list nat) (cfg : config A) (e : exn) :
  first_raised (snd cfg) = Some e -> gather sched cfg = (Raised e, cfg).
Proof. intros H. destruct sched; cbn [gather]; now rewrite H. Qed.

Lemma gather_returned {A : Type} (sched : list nat) (cfg : config A)
    (rs : list A) :
  first_raised (snd cfg) = None -> results (snd cfg) = Some rs ->
  gather sched cfg = (Returned rs, cfg).
Proof. intros H1 H2. destruct sched; cbn [gather]; now rewrite H1, H2. Qed.

Lemma gather_reach {A : Type} (sched : list nat) :
  forall cfg : config A,
    exists sched', snd (gather sched cfg) = run_schedule sched' cfg.
Proof.
  induction sched as [|i rest IH]; intros cfg; cbn [gather].
  - exists []. destruct (first_raised (snd cfg)); [reflexivity |].
    now destruct (results (snd cfg)).
  - destruct (first_raised (snd cfg)); [now exists [] |].
    destruct (results (snd cfg)); [now exists [] |].
    destruct (IH match step_task i cfg with
                 | Some cfg' => cfg'
                 | None => cfg
                 end) as [s Hs].
    exists (i :: s). rewrite Hs. cbn [run_schedule].
    now destruct (step_task i cfg).
Qed.

Lemma first_raised_at (pre : list string) (line : string)
    (rest : list string) (e : exn) :
  _swing_support self = false ->
  Forall (fun l => exists u,
            _parse self (slice 0 6 l) l EmptyString = inr u) pre ->
  _parse self (slice 0 6 line) line EmptyString = inl e ->
  first_raised (map (fun l => create self (slice 0 6 l) (Some l))
                    (pre ++ line :: rest)) = Some e.
Proof.
  intros Hsw Hpre Hline.
  induction Hpre as [|l pre [u Hu] _ IH]; cbn [app map first_raised].
  - now rewrite (create_pure _ _ Hsw), Hline.
  - now rewrite (create_pure _ _ Hsw), Hu.
Qed.

Lemma results_all (lines : list string) :
  _swing_support self = false ->
  Forall (fun l => exists u,
            _parse self (slice 0 6 l) l EmptyString = inr u) lines ->
  first_raised (map (fun l => create self (slice 0 6 l) (Some l)) lines)
  = None
  /\ exists pairs,
       results (map (fun l => create self (slice 0 6 l) (Some l)) lines)
       = Some pairs
       /\ Forall2 (fun l p =>
                     snd p = slice 0 6 l
                     /\ _parse self (slice 0 6 l) l EmptyString
                        = inr (fst p)) lines pairs.
Proof.
  intros Hsw Hall.
  induction Hall as [|l lines [u Hu] _ (IH1 & pairs & IH2 & IH3)];
    cbn [map first_raised results].
  - split; [reflexivity |]. exists []. now split.
  - rewrite (create_pure _ _ Hsw), Hu. split; [exact IH1 |].
    exists ((u, slice 0 6 l) :: pairs). rewrite IH2. split; [reflexivity |].
    now constructor.
Qed.

Lemma dict_of_units_lookup (pairs : list (CoolMasterNetUnit * string)) :
  forall (m0 : gmap string CoolMasterNetUnit) (k : string)
         (u : CoolMasterNetUnit),
    fold_left (fun m p => <[snd p := fst p]> m) pairs m0 !! k = Some u ->
    (u, k) ∈ pairs \/ m0 !! k = Some u.
Proof.
  induction pairs as [|[u0 k0] pairs IH]; intros m0 k u H; cbn in H.
  - now right.
  - destruct (IH _ _ _ H) as [Hin | Hm].
    + left. now right.
    + cbn in Hm. rewrite lookup_insert in Hm.
      destruct (decide (k0 = k)) as [-> | Hne].
      * injection Hm as ->. left. now left.
      * now right.
Qed.

Lemma dict_of_units_keys (pairs : list (CoolMasterNetUnit * string)) :
  forall (m0 : gmap string CoolMasterNetUnit) (k : string),
    k ∈ map snd pairs \/ is_Some (m0 !! k) ->
    is_Some (fold_left (fun m p => <[snd p := fst p]> m) pairs m0 !! k).
Proof.
  induction pairs as [|[u0 k0] pairs IH]; intros m0 k H; cbn.
  - destruct H as [H | H]; [now apply elem_of_nil in H | exact H].
  - apply IH. cbn [map snd] in H. rewrite elem_of_cons in H.
    destruct H as [[-> | H] | H].
    + right. rewrite lookup_insert_eq. eauto.
    + now left.
    + right. rewrite lookup_insert. destruct (decide (k0 = k)); eauto.
Qed.

(** X16.  [status] on a bridge without swing support, whatever the order
    in which the gathered tasks are run: after the listing nothing more is
    written.  If every line of the trimmed body parses, the mapping has a
    snapshot for the first six characters of every line, and each snapshot
    found under a key carries that key as its identifier and is the parse
    of a line that starts with it.  If some line does not parse, the error
    of the first such line is raised.  An empty listing is one empty line
    and raises the ConnectionError of a malformed line. *)
Theorem status_without_swing (w w1 : world) (body : string)
    (sched : list nat) :
  _swing_support self = false ->
  run (_make_request self "ls2") w = (Returned body, w1) ->
  fst (snd (status self sched w)) = w1
  /\ (forall pre line rest e,
        split crlf (strip body) = pre ++ line :: rest ->
        Forall (fun l => exists u,
                  _parse self (slice 0 6 l) l EmptyString = inr u) pre ->
        _parse self (slice 0 6 line) line EmptyString = inl e ->
        fst (status self sched w) = Raised e)
  /\ (Forall (fun l => exists u,
                _parse self (slice 0 6 l) l EmptyString = inr u)
             (split crlf (strip body)) ->
      exists m,
        fst (status self sched w) = Returned m
        /\ (forall l, l ∈ split crlf (strip body) ->
                      is_Some (m !! slice 0 6 l))
        /\ (forall k u, m !! k = Some u ->
              _unit_id u = k
              /\ exists l, l ∈ split crlf (strip body)
                           /\ slice 0 6 l = k
                           /\ _parse self k l EmptyString = inr u))
  /\ (strip body = EmptyString ->
      fst (status self sched w)
      = Raised (unexpected_format [EmptyString])).
Proof.
  intros Hsw Hrun.
  assert (Hbad : forall pre line rest e,
            split crlf (strip body) = pre ++ line :: rest ->
            Forall (fun l => exists u,
                      _parse self (slice 0 6 l) l EmptyString = inr u) pre ->
            _parse self (slice 0 6 line) line EmptyString = inl e ->
            fst (status self sched w) = Raised e).
  { intros pre line rest e Hl Hpre Hline. unfold status.
    rewrite Hrun, Hl. cbv zeta.
    now rewrite (gather_raised sched _ e)
      by (cbn [snd]; now apply first_raised_at). }
  split; [| split; [exact Hbad | split]].
  - unfold status. rewrite Hrun. cbv zeta.
    destruct (gather_reach sched
                (w1, map (fun line => create self (slice 0 6 line) (Some line))
                         (split crlf (strip body)))) as [s Hs].
    assert (Hquiet : forall s0 (cfg : config (CoolMasterNetUnit * string)),
              Forall (fun p => finished p = true) (snd cfg) ->
              run_schedule s0 cfg = cfg).
    { induction s0 as [|i s0 IH]; intros cfg Hf; [reflexivity |].
      cbn [run_schedule]. unfold step_task.
      destruct (snd cfg !! i) as [p|] eqn:Hp; [| now apply IH].
      assert (Hfp : finished p = true).
      { rewrite Forall_forall in Hf. apply Hf.
        eapply list_elem_of_lookup_2. exact Hp. }
      destruct p; try discriminate; cbn [step]; now apply IH. }
    rewrite Hquiet in Hs.
    + destruct (gather sched _) as [[?|?|] cfg]; cbn [snd fst] in *;
        now rewrite Hs.
    + cbn [snd]. apply Forall_map. apply Forall_forall. intros l _.
      cbn beta. rewrite (create_pure _ _ Hsw).
      now destruct (_parse self (slice 0 6 l) l EmptyString).
  - intros Hall.
    destruct (results_all _ Hsw Hall) as (Hnone & pairs & Hres & Hpairs).
    exists (dict_of_units pairs). unfold status. rewrite Hrun. cbv zeta.
    rewrite (gather_returned sched _ pairs) by assumption. cbn [fst].
    split; [reflexivity | split].
    + intros l Hl. unfold dict_of_units. apply dict_of_units_keys. left.
      clear - Hpairs Hl. induction Hpairs as [|l0 p ls ps [Hk _] _ IH].
      * now apply elem_of_nil in Hl.
      * cbn [map]. rewrite elem_of_cons in Hl |- *.
        destruct Hl as [-> | Hl]; [now left | right; now apply IH].
    + intros k u Hk. unfold dict_of_units in Hk.
      apply dict_of_units_lookup in Hk.
      destruct Hk as [Hin | Hk]; [| now rewrite lookup_empty in Hk].
      clear - Hpairs Hin.
      induction Hpairs as [|l0 p ls ps [Hk Hp] _ IH].
      * now apply elem_of_nil in Hin.
      * rewrite elem_of_cons in Hin. destruct Hin as [<- | Hin].
        -- cbn in Hk, Hp. subst k.
           assert (Hid : _unit_id u = slice 0 6 l0).
           { destruct (parse_inversion _ _ _ _ _ Hp)
               as (f0 & f1 & f2 & f3 & f4 & f5 & f6 & f7 & f8 & c & x & y
                   & _ & _ & _ & _ & ->).
             reflexivity. }
           split; [exact Hid |]. exists l0.
           split; [now left | now split].
        -- destruct (IH Hin) as [Hid (l & Hl & Hkl & Hpl)].
           split; [exact Hid |]. exists l.
           split; [now right | now split].
  - intros Hempty. apply (Hbad [] EmptyString []).
    + now rewrite Hempty.
    + constructor.
    + reflexivity.
Qed.

(** X17.  During the bulk listing of a new bridge object, with or without
    swing support and however many units are listed, the gathered tasks
    share the three slots: wherever [status] stops, the semaphore is
    between 0 and 3 and counts the free slots, and at most three tasks are
    in a transaction with at most that many connections open. *)
Theorem status_respects_pool (ps : list (option peer)) (sched : list nat) :
  let cfg := snd (status self sched (fresh_world ps)) in
  0 <= sem (fst cfg) <= 3
  /\ Z.of_nat (count_if in_transaction (snd cfg)) = 3 - sem (fst cfg)
  /\ (open_count (fst cfg) <= count_if in_transaction (snd cfg) <= 3)%nat.
Proof.
  cbv zeta. unfold status.
  destruct (run (_make_request self "ls2") (fresh_world ps)) as [o w1] eqn:Hrun.
  destruct (tx_run 8 false None _ (fresh_world ps) w1 o
              (make_request_tx self "ls2")
              ltac:(unfold fresh_world, semaphore_initial; cbn; lia)
              ltac:(unfold fresh_world, semaphore_initial; cbn; lia)
              ltac:(discriminate) Hrun) as (_ & Hs & Hc).
  unfold fresh_world, semaphore_initial in Hs, Hc. cbn in Hs, Hc.
  assert (Hoc : open_count w1 = O) by lia.
  assert (Hinv : forall ts : list (prog (CoolMasterNetUnit * string)),
            Forall (tx 16 false None) ts ->
            pool_inv (w1, ts)
              (map (fun _ => {| a_bound := 16; a_slot := false;
                                a_conn := None |}) ts)).
  { intros ts Hts. unfold pool_inv. cbn [fst snd].
    assert (H : count_if a_slot
                  (map (fun _ : prog (CoolMasterNetUnit * string) =>
                          {| a_bound := 16; a_slot := false;
                             a_conn := None |}) ts) = O
                /\ conns_of
                     (map (fun _ : prog (CoolMasterNetUnit * string) =>
                             {| a_bound := 16; a_slot := false;
                                a_conn := None |}) ts) = []).
    { clear. induction ts as [|x l [IH1 IH2]]; [now split |].
      split; assumption. }
    destruct H as [-> ->]. rewrite Hoc, Hs.
    repeat split; try constructor; try (unfold semaphore_initial; lia).
    induction Hts; constructor; assumption. }
  assert (Hbounds : forall cfg anns,
            pool_inv (A := CoolMasterNetUnit * string) cfg anns ->
            0 <= sem (fst cfg) <= 3
            /\ Z.of_nat (count_if in_transaction (snd cfg)) = 3 - sem (fst cfg)
            /\ (open_count (fst cfg) <= count_if in_transaction (snd cfg)
                <= 3)%nat).
  { intros cfg anns Hi.
    pose proof (pool_bounds cfg anns Hi) as (H1 & H2 & H3).
    split; [exact H1 |]. split; [exact H2 |]. lia. }
  destruct o as [body| |].
  - destruct (gather_reach sched
                (w1, map (fun line => create self (slice 0 6 line) (Some line))
                         (split crlf (strip body)))) as [s Hsched].
    assert (Htasks : Forall (tx 16 false None)
              (map (fun line => create self (slice 0 6 line) (Some line))
                   (split crlf (strip body)))).
    { apply Forall_map, Forall_forall. intros l _. apply create_tx. }
    destruct (pool_inv_run s _ _ (Hinv _ Htasks)) as [anns Hanns].
    rewrite <- Hsched in Hanns.
    destruct (gather sched _) as [[?|?|] cfg]; cbn [snd] in *;
      exact (Hbounds _ _ Hanns).
  - cbn [snd]. exact (Hbounds _ _ (Hinv [] ltac:(constructor))).
  - cbn [snd]. exact (Hbounds _ _ (Hinv [] ltac:(constructor))).
Qed.

End Status.

Lemma status_without_swing_witness :
  exists m,
    fst (status (new "bridge") []
           (fresh_world [Some (answering scenario_A_response)]))
    = Returned m
    /\ forall k u, m !! k = Some u -> _unit_id u = k.
Proof.
  destruct (status_without_swing (new "bridge")
              (fresh_world [Some (answering scenario_A_response)]) _ _ []
              eq_refl ltac:(vm_compute; reflexivity))
    as (_ & _ & Hgood & _).
  destruct Hgood as (m & Hm & _ & Hk).
  - match goal with
    | |- Forall ?P ?l =>
        let l' := eval vm_compute in l in change (Forall P l')
    end.
    repeat constructor. eexists. vm_compute. reflexivity.
  - exists m. split; [exact Hm |]. intros k u H. exact (proj1 (Hk k u H)).
Defined.

(* ===================================================================== *)
(** * Further properties: [set_swing] when it returns                      *)
(* ===================================================================== *)

(** X18.  When [set_swing] returns, the value is one of the seven names
    of [SWING_MODES], the one command [swing id code] with the code of the
    table was written, followed by what a refresh writes, the body of the
    answer did not start with "Unsupported Feature", and the snapshot is of
    the same unit on the same bridge.  The swing support of the bridge
    plays no part in the command. *)
Theorem set_swing_returns (self : CoolMasterNetUnit) (value : string)
    (w w' : world) (u : CoolMasterNetUnit) :
  run (set_swing self value) w = (Returned u, w') ->
  exists code body w1,
    In value SWING_MODES
    /\ dict_get _SWING_NAME_TO_CHAR value = Some code
    /\ run (_make_request (_bridge self)
              ("swing " +:+ _unit_id self +:+ " " +:+ code)) w
       = (Returned body, w1)
    /\ startswith body "Unsupported Feature" = false
    /\ _unit_id u = _unit_id self /\ _bridge u = _bridge self
    /\ writes (log w')
       = writes (log w)
         ++ bytes ("swing " +:+ _unit_id self +:+ " " +:+ code +:+ nl)
            :: create_writes (_bridge self) (_unit_id self) None.
Proof.
  intros H. unfold set_swing in H.
  destruct (str_in value SWING_MODES) eqn:Hin; cbn [negb] in H;
    [| discriminate].
  apply str_in_spec in Hin.
  destruct (swing_request self value Hin) as (code & Hcode & _ & _ & Hreq).
  unfold dict_item in H. rewrite Hcode in H. cbn [lift bind] in H.
  apply run_bind_returned in H. destruct H as (body & w1 & Hb & H).
  unfold _make_unit_request in Hb. rewrite Hreq in Hb.
  destruct (startswith body "Unsupported Feature") eqn:Hst; [discriminate |].
  destruct (refresh_result _ _ _ _ H) as (Hid & Hbr & Hw).
  destruct (make_request_returned _ _ _ _ _ Hb) as [Hw1 _].
  exists code, body, w1. repeat split; try assumption.
  rewrite Hw, Hw1, <- app_assoc. cbn [app]. now rewrite !append_assoc.
Qed.

Lemma set_swing_returns_witness :
  exists u w',
    run (set_swing scenario_A_unit "vertical")
        (fresh_world [Some (answering ("OK" +:+ crlf +:+ ">"));
                      Some (answering scenario_A_response)])
    = (Returned u, w')
    /\ writes (log w')
       = [bytes ("swing IEF001 v" +:+ nl); bytes ("ls2 IEF001" +:+ nl)].
Proof.
  eexists. eexists. split; [vm_compute; reflexivity |].
  destruct (set_swing_returns scenario_A_unit "vertical"
              (fresh_world [Some (answering ("OK" +:+ crlf +:+ ">"));
                            Some (answering scenario_A_response)])
              _ _ ltac:(vm_compute; reflexivity))
    as (code & body & w1 & _ & Hcode & _ & _ & _ & _ & Hw).
  vm_compute in Hcode. injection Hcode as <-. exact Hw.
Defined.
